(** * Abdel84_Cal: the frame-to-measurement pipeline of [app.py]

    A shallow embedding of the numerical core of the Flask backend:
    [process_video] (frame normalisation), the mask reductions of
    [analyze_video] and [process_mask], sequential relabelling,
    [analyze_calcium_intensity] (per-cell mean intensity, baselines,
    normalised intensity) and [calculate_df].

    Modelling conventions.
    - A numpy array is a [shape] together with its elements in row-major
      (C) order.  The dtype is not modelled: elements are unbounded
      integers.  A mask of floating-point dtype, which can hold [nan], is
      an [farray], and lines 807-843 are read for it as well.
    - A float64 is an exact rational or one of the IEEE special values
      [+inf], [-inf], [nan].  Rounding and the sign of zero are not
      modelled; division by zero and the mean of an empty selection
      produce the special values, as numpy does (with a warning, without
      raising).
    - A Python exception is the [Raise] outcome of the [result] type.
    - Where mutation matters, arrays are objects in a [heap] indexed by
      references, and the analysis is run over that store. *)

From Stdlib Require Import ZArith QArith List Lia Permutation Sorted.
From Stdlib Require Qcanon.
From stdpp Require Import gmap list.
Close Scope Q_scope.
Open Scope Z_scope.

(** ** Outcomes of Python code *)

Inductive exn := IndexError | KeyError | TypeError | ValueError.

Inductive result (A : Type) :=
| Ok (a : A)
| Raise (e : exn).
Arguments Ok {A} a.
Arguments Raise {A} e.

Definition bind {A B} (r : result A) (k : A -> result B) : result B :=
  match r with
  | Ok a => k a
  | Raise e => Raise e
  end.

Notation "'let*' x ':=' r 'in' k" := (bind r (fun x => k))
  (at level 10, x pattern, r at level 100, k at level 200).

Definition raises {A} (r : result A) : Prop := exists e, r = Raise e.

(** A loop whose body may raise: the first exception ends the loop. *)
Fixpoint for_each {A B} (f : A -> result B) (l : list A) : result (list B) :=
  match l with
  | [] => Ok []
  | x :: l' =>
      let* y := f x in
      let* ys := for_each f l' in
      Ok (y :: ys)
  end.

(** ** float64 values *)

Inductive float :=
| Fin (q : Q)
| PInf
| NInf
| NaN.

Definition Qzero (q : Q) : bool := Qeq_bool q 0%Q.
Definition Qpos (q : Q) : bool := negb (Qle_bool q 0%Q).

Definition fl_of_Z (z : Z) : float := Fin (inject_Z z).
Definition fl_of_nat (n : nat) : float := fl_of_Z (Z.of_nat n).

Definition fl_neg (a : float) : float :=
  match a with
  | Fin q => Fin (Qred (- q)%Q)
  | PInf => NInf
  | NInf => PInf
  | NaN => NaN
  end.

Definition fl_add (a b : float) : float :=
  match a, b with
  | NaN, _ | _, NaN => NaN
  | Fin x, Fin y => Fin (Qred (x + y)%Q)
  | PInf, NInf | NInf, PInf => NaN
  | PInf, _ | _, PInf => PInf
  | NInf, _ | _, NInf => NInf
  end.

Definition fl_sub (a b : float) : float := fl_add a (fl_neg b).

(** IEEE division: [x/0] is an infinity of the sign of [x], [0/0] and
    [inf/inf] are [nan]; nothing raises. *)
Definition fl_div (a b : float) : float :=
  match a, b with
  | NaN, _ | _, NaN => NaN
  | Fin x, Fin y =>
      if Qzero y then
        if Qzero x then NaN else if Qpos x then PInf else NInf
      else Fin (Qred (x / y)%Q)
  | Fin _, _ => Fin 0%Q
  | PInf, Fin y => if Qpos y || Qzero y then PInf else NInf
  | NInf, Fin y => if Qpos y || Qzero y then NInf else PInf
  | _, _ => NaN
  end.

Definition is_nan (a : float) : bool :=
  match a with NaN => true | _ => false end.

Definition is_finite (a : float) : Prop := exists q, a = Fin q.

(** The order pandas sorts by: numbers ascending, [nan] last. *)
Definition fl_leb (a b : float) : bool :=
  match a, b with
  | _, NaN => true
  | NaN, _ => false
  | NInf, _ => true
  | _, NInf => false
  | _, PInf => true
  | PInf, _ => false
  | Fin x, Fin y => Qle_bool x y
  end.

Definition fl_sum (l : list float) : float := fold_left fl_add l (Fin 0%Q).

(** [np.mean]: sum over count; the mean of nothing is [0/0 = nan]. *)
Definition np_mean (l : list float) : float :=
  fl_div (fl_sum l) (fl_of_nat (length l)).

(** [Series.mean()]: pandas skips [nan] entries ([skipna=True]). *)
Definition pd_mean (l : list float) : float :=
  np_mean (List.filter (fun x => negb (is_nan x)) l).

(** ** numpy arrays *)

Record ndarray := mk_ndarray { shape : list nat; data : list Z }.

Definition size (sh : list nat) : nat := fold_right Nat.mul 1%nat sh.

Definition wf (a : ndarray) : Prop := length (data a) = size (shape a).

(** [n] consecutive blocks of [k] elements. *)
Fixpoint chunks {A} (k n : nat) (l : list A) : list (list A) :=
  match n with
  | O => []
  | S n' => firstn k l :: chunks k n' (skipn k l)
  end.

Definition last_axis (sh : list nat) : nat := List.last sh 0%nat.

(** Number of index tuples over all axes but the last. *)
Definition outer (sh : list nat) : nat := size (removelast sh).

(** [a[np.newaxis, ...]] and [a[..., np.newaxis]]: same elements. *)
Definition newaxis_front (a : ndarray) : ndarray :=
  mk_ndarray (1%nat :: shape a) (data a).

Definition newaxis_back (a : ndarray) : ndarray :=
  mk_ndarray (shape a ++ [1%nat]) (data a).

(** [np.repeat(a, k, axis=-1)]: every element [k] times in place. *)
Definition repeat_last (k : nat) (a : ndarray) : ndarray :=
  mk_ndarray (removelast (shape a) ++ [(last_axis (shape a) * k)%nat])
             (flat_map (fun x => List.repeat x k) (data a)).

(** [a[..., :k]] *)
Definition slice_last (k : nat) (a : ndarray) : ndarray :=
  let c := last_axis (shape a) in
  mk_ndarray (removelast (shape a) ++ [Nat.min k c])
             (concat (map (firstn k) (chunks c (outer (shape a)) (data a)))).

(** [a[..., i]]: out of bounds raises. *)
Definition index_last (i : nat) (a : ndarray) : result ndarray :=
  let c := last_axis (shape a) in
  if (i <? c)%nat then
    Ok (mk_ndarray (removelast (shape a))
          (map (fun px => nth i px 0) (chunks c (outer (shape a)) (data a))))
  else Raise IndexError.

(** [a[0]] *)
Definition index_first (a : ndarray) : result ndarray :=
  match shape a with
  | S _ :: rest => Ok (mk_ndarray rest (firstn (size rest) (data a)))
  | _ => Raise IndexError
  end.

(** Iterating an array yields its sub-arrays along axis 0. *)
Definition iter_axis0 (a : ndarray) : result (list ndarray) :=
  match shape a with
  | [] => Raise TypeError
  | n :: rest => Ok (map (mk_ndarray rest) (chunks (size rest) n (data a)))
  end.

Definition zeros_like (a : ndarray) : ndarray :=
  mk_ndarray (shape a) (map (fun _ => 0) (data a)).

(** [a == v], a boolean array of the shape of [a] *)
Definition eq_mask (a : ndarray) (v : Z) : list bool :=
  map (fun x => x =? v) (data a).

(** [dst[m] = v] for a boolean array [m] of the shape of [dst] *)
Definition assign_where (dst : ndarray) (m : list bool) (v : Z) : ndarray :=
  mk_ndarray (shape dst)
             (zip_with (fun d (b : bool) => if b then v else d) (data dst) m).

(** [a[m]] for a boolean array [m] of shape [msh]: [msh] must match the
    leading axes of [a]; the blocks at the true positions are kept. *)
Definition bool_index (a : ndarray) (msh : list nat) (m : list bool)
  : result (list Z) :=
  if bool_decide (firstn (length msh) (shape a) = msh) then
    let blocks := chunks (size (skipn (length msh) (shape a))) (size msh) (data a) in
    Ok (concat (map snd (List.filter fst (combine m blocks))))
  else Raise IndexError.

(** [np.unique]: the distinct values in ascending order. *)
Fixpoint insert_unique (x : Z) (l : list Z) : list Z :=
  match l with
  | [] => [x]
  | y :: l' =>
      if x <? y then x :: l
      else if x =? y then l
      else y :: insert_unique x l'
  end.

Definition np_unique (l : list Z) : list Z := fold_right insert_unique [] l.

(** [u[u != 0]] *)
Definition nonzero (l : list Z) : list Z :=
  List.filter (fun v => negb (v =? 0)) l.

(** [np.arange(1, n + 1)] *)
Definition arange1 (n : nat) : list Z := map Z.of_nat (seq 1 n).

(** [enumerate(l, 1)] *)
Definition enumerate1 {A} (l : list A) : list (Z * A) :=
  combine (arange1 (length l)) l.

(** ** [process_video] *)

Definition in_134 (c : nat) : bool :=
  (c =? 1)%nat || (c =? 3)%nat || (c =? 4)%nat.

(** Lines 1062-1078: bring the array to (N, H, W, C), then to RGB. *)
Definition normalize_frames (frames : ndarray) : result ndarray :=
  let frames :=
    if (length (shape frames) =? 2)%nat then newaxis_back (newaxis_front frames)
    else if (length (shape frames) =? 3)%nat then
      if in_134 (last_axis (shape frames)) then newaxis_front frames
      else newaxis_back frames
    else frames in
  match shape frames with
  | [] => Raise IndexError
  | _ =>
      if (last_axis (shape frames) =? 1)%nat then Ok (repeat_last 3 frames)
      else if (last_axis (shape frames) =? 4)%nat then Ok (slice_last 3 frames)
      else Ok frames
  end.

(** A source is a TIFF file (its array) or a video container, given by the
    successive results [(ret, frame)] of [cap.read()]; past the end of the
    list every read fails. *)
Inductive source :=
| Tiff (a : ndarray)
| Video (reads : list (bool * ndarray)).

(** The [while True] loop of lines 1053-1057. *)
Fixpoint read_frames (reads : list (bool * ndarray)) : list ndarray :=
  match reads with
  | (true, f) :: reads' => f :: read_frames reads'
  | _ => []
  end.

(** [np.array(frames)]: equally shaped arrays are stacked along a new
    first axis, the empty list gives the empty 1-D array of shape (0,), and
    arrays of different shapes are refused. *)
Definition np_array (frames : list ndarray) : result ndarray :=
  match frames with
  | [] => Ok (mk_ndarray [0%nat] [])
  | f :: fs =>
      if forallb (fun g => bool_decide (shape g = shape f)) fs then
        Ok (mk_ndarray (length frames :: shape f) (flat_map data frames))
      else Raise ValueError
  end.

Definition process_video (src : source) : result ndarray :=
  let* frames :=
    match src with
    | Tiff a => Ok a
    | Video reads => np_array (read_frames reads)
    end in
  normalize_frames frames.

(** ** Reduction of a mask volume to 2-D *)

(** [analyze_video], lines 227-231. *)
Definition analyze_video_reduce (masks : ndarray) : result ndarray :=
  if (2 <? length (shape masks))%nat then
    if (last_axis (shape masks) =? 3)%nat then index_last 1 masks
    else if (length (shape masks) =? 3)%nat then index_first masks
    else let* m := index_first masks in index_first m
  else Ok masks.

(** [process_mask], lines 1193-1198. *)
Definition process_mask_reduce (mask : ndarray) : result ndarray :=
  if (2 <? length (shape mask))%nat then
    if (length (shape mask) =? 3)%nat && (nth 2 (shape mask) 0 =? 3)%nat
    then index_last 0 mask
    else if (length (shape mask) =? 3)%nat then index_first mask
    else let* m := index_first mask in index_first m
  else Ok mask.

(** ** Sequential relabelling *)

(** The loop [relabeled_mask[masks == original_id] = new_id] over
    (new_id, original_id) pairs, starting from [np.zeros_like(masks)]. *)
Definition relabel (masks : ndarray) (pairs : list (Z * Z)) : ndarray :=
  fold_left
    (fun dst '(new_id, original_id) =>
       assign_where dst (eq_mask masks original_id) new_id)
    pairs (zeros_like masks).

(** [analyze_calcium_intensity], lines 807-819: the mask and the cell ids
    used from there on. *)
Definition sequential_labels (masks : ndarray) : ndarray * list Z :=
  let unique_cells := nonzero (np_unique (data masks)) in
  if bool_decide (unique_cells = arange1 (length unique_cells)) then
    (masks, unique_cells)
  else
    (relabel masks (enumerate1 unique_cells), arange1 (length unique_cells)).

(** [process_mask], lines 1201-1212: the relabelled mask and the dict
    original id -> sequential id, in insertion order. *)
Definition process_mask_relabel (mask : ndarray) : ndarray * list (Z * Z) :=
  let unique_original_cell_ids := nonzero (np_unique (data mask)) in
  let original_to_sequential_id_map :=
    map (fun '(sequential_id, original_id) => (original_id, sequential_id))
        (enumerate1 unique_original_cell_ids) in
  (fold_left
     (fun dst '(original_id, sequential_id) =>
        assign_where dst (eq_mask mask original_id) sequential_id)
     original_to_sequential_id_map (zeros_like mask),
   original_to_sequential_id_map).

(** ** [analyze_calcium_intensity] *)

(** One row of [results] (a dict with these three keys). *)
Record record := mk_record { frame : nat; cell_id : Z; intensity : float }.

(** One row of the returned DataFrame. *)
Record nrecord := mk_nrecord {
  row : record;
  normalized_intensity : float
}.

(** Lines 827-828. *)
Definition select_channel (fr : ndarray) : result ndarray :=
  if (length (shape fr) =? 3)%nat then index_last 1 fr else Ok fr.

(** Lines 833-836: [np.mean(frame[masks == cell_id])]. *)
Definition cell_intensity (fr masks : ndarray) (c : Z) : result float :=
  let* px := bool_index fr (shape masks) (eq_mask masks c) in
  Ok (np_mean (map fl_of_Z px)).

(** The body of the loop over frames, lines 826-843. *)
Definition frame_records (masks : ndarray) (unique_cells : list Z)
  (fi : nat * ndarray) : result (list record) :=
  let* fr := select_channel (snd fi) in
  for_each
    (fun c => let* m := cell_intensity fr masks c in Ok (mk_record (fst fi) c m))
    unique_cells.

(** Lines 822-843: the list [results]. *)
Definition extract_records (frames masks : ndarray) (unique_cells : list Z)
  : result (list record) :=
  let* fs := iter_axis0 frames in
  let* rs := for_each (frame_records masks unique_cells)
               (combine (seq 0 (length fs)) fs) in
  Ok (concat rs).

(** Stable insertion sort of rows by ascending intensity, [nan] last. *)
Fixpoint insert_row (r : record) (l : list record) : list record :=
  match l with
  | [] => [r]
  | r' :: l' =>
      if fl_leb (intensity r) (intensity r') then r :: l
      else r' :: insert_row r l'
  end.

Definition sort_rows (l : list record) : list record :=
  fold_right insert_row [] l.

(** [df.nsmallest(n, 'intensity')] *)
Definition nsmallest (n : nat) (df : list record) : list record :=
  firstn n (sort_rows df).

(** [df[df['cell_id'] == c]] *)
Definition cell_rows (df : list record) (c : Z) : list record :=
  List.filter (fun r => cell_id r =? c) df.

(** [df[(df['cell_id'] == c) & (df['frame'] == 0)]] *)
Definition first_frame_data (df : list record) (c : Z) : list record :=
  List.filter (fun r => (cell_id r =? c) && (frame r =? 0)%nat) df.

(** Lines 851-856: the value stored in [baselines[cell_id]]. *)
Definition baseline_of (df : list record) (c : Z) : float :=
  match first_frame_data df c with
  | r :: _ => intensity r
  | [] =>
      let rows := cell_rows df c in
      pd_mean (map intensity (nsmallest (Nat.min 10 (length rows)) rows))
  end.

(** Lines 849-856: the dict [baselines]. *)
Definition baselines (df : list record) (unique_cells : list Z) : gmap Z float :=
  fold_left (fun b c => <[c := baseline_of df c]> b) unique_cells ∅.

(** Lines 859-862 for one row; a cell without baseline is a [KeyError]. *)
Definition normalize_row (b : gmap Z float) (r : record) : result nrecord :=
  match b !! cell_id r with
  | Some x => Ok (mk_nrecord r (fl_div (intensity r) x))
  | None => Raise KeyError
  end.

(** Lines 846-865.  An empty [results] gives a DataFrame without columns:
    [df['cell_id']] is a [KeyError] as soon as there is a cell, and without
    cells the assignment of the empty frame to a column is refused. *)
Definition add_normalized (df : list record) (unique_cells : list Z)
  : result (list nrecord) :=
  match df, unique_cells with
  | [], [] => Raise ValueError
  | [], _ :: _ => Raise KeyError
  | _, _ => for_each (normalize_row (baselines df unique_cells)) df
  end.

Definition analyze_calcium_intensity (frames masks : ndarray)
  : result (list nrecord) :=
  let '(masks, unique_cells) := sequential_labels masks in
  let* results := extract_records frames masks unique_cells in
  add_normalized results unique_cells.

(** ** [calculate_df] *)

(** [l[:k]] for a Python integer [k] (a negative [k] counts from the end). *)
Definition slice_to {A} (k : Z) (l : list A) : list A :=
  if 0 <=? k then firstn (Z.to_nat k) l
  else firstn (length l - Z.to_nat (- k)) l.

Definition calculate_df (intensities : list float) (baseline_frames : Z)
  : list float :=
  let baseline := np_mean (slice_to baseline_frames intensities) in
  map (fun x => fl_div (fl_sub x baseline) baseline) intensities.

(** The call [calculate_df(intensities)] of the export paths. *)
Definition calculate_df_default (intensities : list float) : list float :=
  calculate_df intensities 10.

(** ** The same analysis over a store of array objects

    [frames] and [masks] are references to arrays owned by the caller.
    [np.zeros_like] allocates a new object; the indexed assignment writes
    into the object its target refers to; [masks = relabeled_mask] only
    rebinds the local name. *)

Definition loc := nat.
Abbreviation heap := (list ndarray).

Definition M (A : Type) : Type := heap -> result A * heap.

Definition ret {A} (a : A) : M A := fun h => (Ok a, h).

Definition mbind {A B} (m : M A) (k : A -> M B) : M B :=
  fun h =>
    match m h with
    | (Ok a, h') => k a h'
    | (Raise e, h') => (Raise e, h')
    end.

Notation "'do*' x ':=' m 'in' k" := (mbind m (fun x => k))
  (at level 10, x pattern, m at level 100, k at level 200).

Definition lift {A} (r : result A) : M A := fun h => (r, h).

(** Reading through a reference (a Python reference never dangles; the
    [None] case is there only to make the function total). *)
Definition load (l : loc) : M ndarray :=
  fun h => match h !! l with
           | Some a => (Ok a, h)
           | None => (Raise TypeError, h)
           end.

Definition alloc (a : ndarray) : M loc :=
  fun h => (Ok (length h), h ++ [a]).

Definition store (l : loc) (a : ndarray) : M unit :=
  fun h => (Ok tt, <[l := a]> h).

Fixpoint for_each_ {A} (f : A -> M unit) (l : list A) : M unit :=
  match l with
  | [] => ret tt
  | x :: l' => do* _ := f x in for_each_ f l'
  end.

(** Lines 814-816. *)
Definition relabel_st (masks : loc) (pairs : list (Z * Z)) : M loc :=
  do* m := load masks in
  do* relabeled_mask := alloc (zeros_like m) in
  do* _ := for_each_
             (fun '(new_id, original_id) =>
                do* m := load masks in
                do* dst := load relabeled_mask in
                store relabeled_mask (assign_where dst (eq_mask m original_id) new_id))
             pairs in
  ret relabeled_mask.

Definition analyze_calcium_intensity_st (frames masks : loc)
  : M (list nrecord) :=
  do* m := load masks in
  let unique_cells := nonzero (np_unique (data m)) in
  do* (masks, unique_cells) :=
      (if bool_decide (unique_cells = arange1 (length unique_cells)) then
         ret (masks, unique_cells)
       else
         do* relabeled_mask := relabel_st masks (enumerate1 unique_cells) in
         ret (relabeled_mask, arange1 (length unique_cells))) in
  do* f := load frames in
  do* m := load masks in
  do* results := lift (extract_records f m unique_cells) in
  lift (add_normalized results unique_cells).

(** ** Vocabulary of the specification *)

(** A canonical label image with [n] cells: its non-background values are
    exactly 1..n (label values are non-negative in the data model). *)
Definition canonical (a : ndarray) (n : nat) : Prop :=
  forall v, (In v (data a) /\ v <> 0) <-> 1 <= v <= Z.of_nat n.

(** The identity ID map on 1..n. *)
Definition identity_map (n : nat) : list (Z * Z) :=
  map (fun i => (i, i)) (arange1 n).

(** The input shapes of frame normalisation, each with the frame count,
    height, width and channel count it stands for. *)
Inductive supported : list nat -> nat -> nat -> nat -> nat -> Prop :=
| single_gray H W : supported [H; W] 1 H W 1
| single_frame H W C : in_134 C = true -> supported [H; W; C] 1 H W C
| gray_stack N H W : in_134 W = false -> supported [N; H; W] N H W 1
| full N H W C : in_134 C = true -> supported [N; H; W; C] N H W C.

(** Where channel [c] of output pixel [p] comes from, for an input with
    [C] channels: the only channel, or channel [c]. *)
Definition src_index (C p c : nat) : nat :=
  if (C =? 1)%nat then p else (C * p + c)%nat.

(** The arithmetic mean of integer readings, as a rational. *)
Definition sum_Z (l : list Z) : Z := fold_right Z.add 0 l.

Definition arithmetic_mean (l : list Z) : Q :=
  (inject_Z (sum_Z l) / inject_Z (Z.of_nat (length l)))%Q.

(** The IEEE quotient [x / 0]. *)
Definition over_zero (x : float) : float :=
  match x with
  | Fin q => if Qzero q then NaN else if Qpos q then PInf else NInf
  | PInf => PInf
  | NInf => NInf
  | NaN => NaN
  end.

(** The row [add_normalized] produces from a row of [results]. *)
Definition normalized (df : list record) (r : record) : nrecord :=
  mk_nrecord r (fl_div (intensity r) (baseline_of df (cell_id r))).

(** Row [r] sorts no later than row [r'] in [nsmallest]. *)
Definition not_above (r r' : record) : Prop :=
  fl_leb (intensity r) (intensity r') = true.

(** The pixels (row-major positions) that carry label [c]. *)
Definition members (masks : ndarray) (c : Z) : list nat :=
  List.filter (fun p => nth p (data masks) 0 =? c) (seq 0 (length (data masks))).

(** The fluorescence reading of pixel [p] of frame [f]: the green channel
    of an (N, H, W, 3) tensor, the value itself for (N, H, W). *)
Definition reading (rgb : bool) (frames : ndarray) (npx f p : nat) : Z :=
  if rgb then nth ((f * npx + p) * 3 + 1) (data frames) 0
  else nth (f * npx + p) (data frames) 0.

Definition mean_reading (rgb : bool) (frames masks : ndarray) (f : nat) (c : Z)
  : float :=
  np_mean (map (fun p => fl_of_Z (reading rgb frames (length (data masks)) f p))
               (members masks c)).

Definition frame_shape (rgb : bool) (N H W : nat) : list nat :=
  if rgb then [N; H; W; 3%nat] else [N; H; W].

(** Ascending frame index, then ascending cell id. *)
Definition before (r r' : record) : Prop :=
  (frame r < frame r')%nat \/ (frame r = frame r' /\ cell_id r < cell_id r').

(** No [nan] among the intensities of cell [c]. *)
Definition nan_free (df : list record) (c : Z) : Prop :=
  forall r, In r df -> cell_id r = c -> intensity r <> NaN.

(** What the relabelling loop leaves at a pixel of raw value [v], starting
    from [init]: the last new id whose original id is [v]. *)
Definition relabel_value (pairs : list (Z * Z)) (v init : Z) : Z :=
  fold_left
    (fun acc '(new_id, original_id) => if v =? original_id then new_id else acc)
    pairs init.

(** ** Concrete inputs *)

(** Scenario A of the specification: three all-100 frames, labels 5 and 7. *)
Definition scenario_frames : ndarray :=
  mk_ndarray [3; 4; 4; 3]%nat (List.repeat 100 144).

Definition scenario_labels : ndarray :=
  mk_ndarray [4; 4]%nat [0;0;5;5; 0;0;5;5; 7;7;0;0; 7;7;0;0].

Definition one : float := Fin 1%Q.
Definition hundred : float := fl_of_Z 100.

(** A 1x1 RGB-encoded mask whose channels differ. *)
Definition rgb_mask : ndarray := mk_ndarray [1; 1; 3]%nat [5; 7; 0].

(** A two-channel stack of one 1x1 frame. *)
Definition two_channel_stack : ndarray := mk_ndarray [1; 1; 1; 2]%nat [7; 8].

(** Two 1x1 RGB frames, dark then bright, and a one-cell label image. *)
Definition dark_frames : ndarray :=
  mk_ndarray [2; 1; 1; 3]%nat [0; 0; 0; 5; 5; 5].
Definition one_cell : ndarray := mk_ndarray [1; 1]%nat [1].

(** A table whose only cell is first seen at frame 3. *)
Definition late_cell : list record :=
  [mk_record 3 5 (fl_of_Z 8); mk_record 4 5 (fl_of_Z 2); mk_record 5 5 (fl_of_Z 6)].

(** ** Further parts of [app.py] *)

(** Lookup in a Python dict given by its items in insertion order. *)
Fixpoint dict_get (d : list (Z * Z)) (k : Z) : option Z :=
  match d with
  | [] => None
  | (k', v) :: d' => if k =? k' then Some v else dict_get d' k
  end.

(** [a.reshape(sh)]: the sizes must agree. *)
Definition reshape (a : ndarray) (sh : list nat) : result ndarray :=
  if (size sh =? size (shape a))%nat then Ok (mk_ndarray sh (data a))
  else Raise ValueError.

(** [prepare_for_segmentation], lines 1089-1100: the image that is then
    rescaled to uint8 (the rescaling, lines 1102-1107, depends on the dtype
    and on float rounding and is not modelled). *)
Definition segmentation_channel (fr : ndarray) : result ndarray :=
  let* img :=
    if (length (shape fr) =? 3)%nat && (3 <=? last_axis (shape fr))%nat
    then index_last 1 fr
    else if (length (shape fr) =? 3)%nat then index_last 0 fr
    else Ok fr in
  if (2 <? length (shape img))%nat then reshape img (firstn 2 (shape img))
  else Ok img.

(** [analyze_video], line 265:
    [masks.shape != (frames.shape[1], frames.shape[2])]. *)
Definition check_dimensions (frames masks : ndarray) : result unit :=
  match shape frames with
  | _ :: h :: w :: _ =>
      if bool_decide (shape masks = [h; w]) then Ok tt else Raise ValueError
  | _ => Raise IndexError
  end.

(** [analyze_video] with an uploaded mask, lines 219-232, 264-278 and
    317-338: the number of cells and the intensity table of the response.
    The preview image and the files written on the way are not modelled;
    [Raise] stands for the error response, and a failure of the analysis is
    re-raised as a [ValueError] (line 338). *)
Definition analyze_video_uploaded (src : source) (mask_file : ndarray)
  : result (nat * list nrecord) :=
  let* frames := process_video src in
  let* masks := analyze_video_reduce mask_file in
  let* _ := check_dimensions frames masks in
  let n_cells := length (nonzero (np_unique (data masks))) in
  if (n_cells =? 0)%nat then Raise ValueError
  else
    match analyze_calcium_intensity frames masks with
    | Ok intensity_df => Ok (n_cells, intensity_df)
    | Raise _ => Raise ValueError
    end.




(** [Series.unique()]: the distinct values in order of first appearance. *)
Fixpoint pd_unique_from (seen l : list Z) : list Z :=
  match l with
  | [] => []
  | x :: l' =>
      if existsb (Z.eqb x) seen then pd_unique_from seen l'
      else x :: pd_unique_from (x :: seen) l'
  end.

Definition pd_unique (l : list Z) : list Z := pd_unique_from [] l.

(** A row of an exported table: the row read from the results file with
    its [dF] and [time_seconds]. *)
Record drecord := mk_drecord {
  source_row : record;
  dF : float;
  time_seconds : float
}.

(** The body of the loop over cells in [export_csv] (lines 606-609),
    [import_csv] (665-668) and [export_all_csv] (744-747). *)
Definition cell_block (df : list record) (cell : Z) : list drecord :=
  let cell_data := cell_rows df cell in
  let intensities := map intensity cell_data in
  zip_with
    (fun r d => mk_drecord r d (fl_div (fl_of_nat (frame r)) (fl_of_Z 30)))
    cell_data (calculate_df_default intensities).

(** The list [df_list]. *)
Definition df_list (df : list record) : list (list drecord) :=
  map (cell_block df) (pd_unique (map cell_id df)).

(** [df['cell_id'].isin(selected_cells)] *)
Definition isin (selected_cells : list Z) (r : record) : bool :=
  existsb (Z.eqb (cell_id r)) selected_cells.

(** [export_csv], lines 590-612: the table written, for the table read
    from the results file.  [Raise] stands for the error response. *)
Definition export_csv (selected_cells : list Z) (df : list record)
  : result (list drecord) :=
  match selected_cells with
  | [] => Raise ValueError
  | _ => Ok (concat (df_list (List.filter (isin selected_cells) df)))
  end.

(** [pd.concat(objs)]: no objects to concatenate is a [ValueError]. *)
Definition pd_concat {A} (objs : list (list A)) : result (list A) :=
  match objs with
  | [] => Raise ValueError
  | _ => Ok (concat objs)
  end.

(** [export_all_csv], lines 739-750, and [import_csv], lines 660-671, for
    a table without [dF] column. *)
Definition export_all_csv (df : list record) : result (list drecord) :=
  pd_concat (df_list df).

(** The (frame, cell) grid in the order the analysis writes it. *)
Definition analysis_order (g : nat -> Z -> float) (N : nat) (cells : list Z)
  : list record :=
  flat_map (fun f => map (fun c => mk_record f c (g f c)) cells) (seq 0 N).

(** ** A mask of floating-point dtype

    A mask file may hold floats, and a float array may hold [nan].
    Lines 807-843 read for such a mask: the same statements, with the
    comparisons of IEEE 754. *)





















(** * Running the model *)

Example scenario_A :
  analyze_calcium_intensity scenario_frames scenario_labels =
  Ok (map (fun '(f, c) => mk_nrecord (mk_record f c hundred) one)
        [(0%nat,1); (0%nat,2); (1%nat,1); (1%nat,2); (2%nat,1); (2%nat,2)]).
Proof. vm_compute. reflexivity. Qed.

Example scenario_A_st :
  fst (analyze_calcium_intensity_st 0%nat 1%nat [scenario_frames; scenario_labels]) =
  analyze_calcium_intensity scenario_frames scenario_labels.
Proof. vm_compute. reflexivity. Qed.

(** * Facts about blocks and indices *)

Section Blocks.
Context {A : Type}.
Implicit Types (l : list A) (k n i j : nat).

Lemma firstn_min_length n l : firstn (Nat.min n (length l)) l = firstn n l.
Proof.
  destruct (Nat.le_gt_cases n (length l)) as [Hle | Hgt].
  - now rewrite Nat.min_l.
  - rewrite Nat.min_r by lia.
    now rewrite firstn_all, firstn_all2 by lia.
Qed.

Lemma chunks_seq k n l :
  chunks k n l = map (fun i => firstn k (skipn (i * k) l)) (seq 0 n).
Proof.
  revert l. induction n as [| n IH]; intros l; [reflexivity |].
  cbn [chunks seq map]. f_equal.
  rewrite IH, <- seq_shift, map_map.
  apply map_ext. intros i. rewrite skipn_skipn. do 2 f_equal. lia.
Qed.

Lemma length_chunks k n l : length (chunks k n l) = n.
Proof. now rewrite chunks_seq, length_map, length_seq. Qed.

Lemma nth_block k j i l d :
  (i < k)%nat -> nth i (firstn k (skipn j l)) d = nth (j + i) l d.
Proof.
  intros Hi. rewrite nth_firstn.
  destruct (Nat.ltb_spec i k); [apply nth_skipn | lia].
Qed.

Lemma list_as_seq l d : l = map (fun i => nth i l d) (seq 0 (length l)).
Proof.
  induction l as [| x l IH]; [reflexivity |].
  cbn [length seq map nth]. f_equal.
  rewrite <- seq_shift, map_map. exact IH.
Qed.

(** Blocks of one element are the elements. *)
Lemma chunks_one l : chunks 1 (length l) l = map (fun x => [x]) l.
Proof.
  induction l as [| x l IH]; [reflexivity |].
  cbn [length chunks map]. now rewrite <- IH.
Qed.

Lemma for_each_map {B} (f : A -> result B) (g : A -> B) l :
  (forall x, In x l -> f x = Ok (g x)) -> for_each f l = Ok (map g l).
Proof.
  induction l as [| x l IH]; intros H; [reflexivity |].
  cbn [for_each map]. rewrite (H x) by now left. cbn [bind].
  rewrite IH by (intros y Hy; apply H; now right). reflexivity.
Qed.

Lemma combine_seq_map {B} (h : nat -> B) n :
  combine (seq 0 n) (map h (seq 0 n)) = map (fun i => (i, h i)) (seq 0 n).
Proof.
  generalize 0%nat. induction n as [| n IH]; intros s; [reflexivity |].
  cbn [seq map combine]. now rewrite IH.
Qed.
End Blocks.

(** The channel [i] of every pixel, by position. *)
Lemma channel_of_chunks (c n i : nat) (l : list Z) :
  (i < c)%nat ->
  map (fun px => nth i px 0) (chunks c n l) =
  map (fun p => nth (p * c + i) l 0) (seq 0 n).
Proof.
  intros Hi. rewrite chunks_seq, map_map.
  apply map_ext. intros p. now apply nth_block.
Qed.

(** * [calculate_df] *)

(** C5: the on-demand dF/F signal is [(intensity[i] - b) / b] with [b] the
    mean of the first [min(baseline_frames, len)] samples of the series it
    is given (and of nothing else); [baseline_frames] defaults to 10. *)
Theorem calculate_df_delta_f (intensities : list float) (baseline_frames : Z) :
  0 <= baseline_frames ->
  let n := Nat.min (Z.to_nat baseline_frames) (length intensities) in
  let b := np_mean (firstn n intensities) in
  length (calculate_df intensities baseline_frames) = length intensities /\
  (forall i x, nth_error intensities i = Some x ->
     nth_error (calculate_df intensities baseline_frames) i =
     Some (fl_div (fl_sub x b) b)) /\
  calculate_df_default intensities = calculate_df intensities 10.
Proof.
  intros Hk n b. unfold calculate_df.
  split; [apply length_map |]. split; [| reflexivity].
  intros i x Hi. rewrite nth_error_map, Hi. cbn [option_map].
  unfold slice_to. destruct (Z.leb_spec 0 baseline_frames); [| lia].
  subst b n. now rewrite firstn_min_length.
Qed.

Lemma calculate_df_delta_f_witness :
  0 <= 2 /\
  nth_error (calculate_df [fl_of_Z 2; fl_of_Z 4; fl_of_Z 3] 2) 1 =
  Some (Fin (1 # 3)%Q).
Proof.
  split; [lia |].
  exact (proj1 (proj2 (calculate_df_delta_f
                         [fl_of_Z 2; fl_of_Z 4; fl_of_Z 3] 2 ltac:(lia)))
               1%nat (fl_of_Z 4) eq_refl).
Defined.

(** * Reduction of mask volumes *)

Lemma analyze_video_reduce_rgb (H W : nat) (d : list Z) :
  analyze_video_reduce (mk_ndarray [H; W; 3%nat] d) =
  Ok (mk_ndarray [H; W] (map (fun p => nth (p * 3 + 1) d 0) (seq 0 (H * W)))).
Proof.
  unfold analyze_video_reduce, index_last, outer. cbn.
  rewrite channel_of_chunks by lia. now rewrite Nat.mul_1_r.
Qed.

Lemma process_mask_reduce_rgb (H W : nat) (d : list Z) :
  process_mask_reduce (mk_ndarray [H; W; 3%nat] d) =
  Ok (mk_ndarray [H; W] (map (fun p => nth (p * 3 + 0) d 0) (seq 0 (H * W)))).
Proof.
  unfold process_mask_reduce, index_last, outer. cbn.
  rewrite channel_of_chunks by lia. now rewrite Nat.mul_1_r.
Qed.

(** C3: of a mask volume of shape (H, W, 3), [analyze_video] keeps
    channel 1 (green) and [process_mask] keeps channel 0; on an RGB-encoded
    mask whose channels differ the two readings of the same file differ. *)
Theorem process_mask_reduce_first_channel :
  (forall H W d,
     analyze_video_reduce (mk_ndarray [H; W; 3%nat] d) =
     Ok (mk_ndarray [H; W]
           (map (fun p => nth (p * 3 + 1) d 0) (seq 0 (H * W))))) /\
  (forall H W d,
     process_mask_reduce (mk_ndarray [H; W; 3%nat] d) =
     Ok (mk_ndarray [H; W]
           (map (fun p => nth (p * 3 + 0) d 0) (seq 0 (H * W))))) /\
  process_mask_reduce rgb_mask = Ok (mk_ndarray [1; 1]%nat [5]) /\
  analyze_video_reduce rgb_mask = Ok (mk_ndarray [1; 1]%nat [7]).
Proof.
  split; [exact analyze_video_reduce_rgb |].
  split; [exact process_mask_reduce_rgb |].
  split; reflexivity.
Qed.

(** * [process_video] *)

(** C9, as the code has it: a video from which no frame is read gives the
    empty array of shape (0,), and nothing is raised. *)
Theorem process_video_no_frames (reads : list (bool * ndarray)) :
  read_frames reads = [] ->
  process_video (Video reads) = Ok (mk_ndarray [0%nat] []).
Proof.
  intros Hr. unfold process_video. rewrite Hr. reflexivity.
Qed.

Lemma process_video_no_frames_witness :
  read_frames [(false, one_cell)] = [] /\
  process_video (Video [(false, one_cell)]) = Ok (mk_ndarray [0%nat] []).
Proof.
  split; [reflexivity |].
  apply (process_video_no_frames [(false, one_cell)]). reflexivity.
Defined.

(** C9 as stated fails: the unreadable video is not an error. *)
Lemma unreadable_video_returns :
  read_frames [] = [] /\
  ~ raises (process_video (Video [])) /\
  process_video (Video []) = Ok (mk_ndarray [0%nat] []).
Proof.
  split; [reflexivity |]. split; [| reflexivity].
  intros [e He]. discriminate He.
Qed.

Lemma in_134_cases (c : nat) :
  in_134 c = true -> c = 1%nat \/ c = 3%nat \/ c = 4%nat.
Proof.
  unfold in_134. intros H.
  destruct (Nat.eqb_spec c 1); [now left |].
  destruct (Nat.eqb_spec c 3); [now right; left |].
  destruct (Nat.eqb_spec c 4); [now right; right | discriminate].
Qed.

Lemma length_triplicate (d : list Z) :
  length (flat_map (fun x => List.repeat x 3) d) = (3 * length d)%nat.
Proof. induction d as [| x d IH]; cbn in *; lia. Qed.

Lemma nth_triplicate (d : list Z) (p c : nat) :
  (c < 3)%nat ->
  nth (3 * p + c) (flat_map (fun x => List.repeat x 3) d) 0 = nth p d 0.
Proof.
  intros Hc. revert p. induction d as [| x d IH]; intros p.
  - cbn [flat_map]. now destruct (3 * p + c)%nat, p.
  - destruct p as [| p].
    + destruct c as [| [| [| c]]]; [reflexivity .. | lia].
    + replace (3 * S p + c)%nat with (S (S (S (3 * p + c)))) by lia.
      cbn [flat_map List.repeat app nth]. apply IH.
Qed.

Lemma length_drop_alpha (n : nat) (d : list Z) :
  length d = (n * 4)%nat ->
  length (concat (map (firstn 3) (chunks 4 n d))) = (3 * n)%nat.
Proof.
  revert d. induction n as [| n IH]; intros d Hd; [reflexivity |].
  destruct d as [| r [| g [| b [| a d]]]]; cbn [length] in Hd; try lia.
  cbn [chunks firstn skipn map concat app length].
  change (skipn 0 d) with d. rewrite IH by lia. lia.
Qed.

Lemma nth_drop_alpha (n : nat) (d : list Z) (p c : nat) :
  length d = (n * 4)%nat -> (p < n)%nat -> (c < 3)%nat ->
  nth (3 * p + c) (concat (map (firstn 3) (chunks 4 n d))) 0 =
  nth (4 * p + c) d 0.
Proof.
  intros Hd Hp Hc. revert d p Hd Hp.
  induction n as [| n IH]; intros d p Hd Hp; [lia |].
  destruct d as [| r [| g [| b [| a d]]]]; cbn [length] in Hd; try lia.
  cbn [chunks firstn skipn map concat app].
  change (skipn 0 d) with d.
  destruct p as [| p].
  - destruct c as [| [| [| c]]]; [reflexivity .. | lia].
  - replace (3 * S p + c)%nat with (S (S (S (3 * p + c)))) by lia.
    replace (4 * S p + c)%nat with (S (S (S (S (4 * p + c))))) by lia.
    cbn [nth]. apply IH; lia.
Qed.

(** C6, with the 4-D case restricted to 1, 3 or 4 channels: the result has
    shape (N, H, W, 3); one channel is copied into the three output
    channels, the first three of four channels are kept, three channels
    pass through unchanged. *)
Theorem normalize_frames_rgb (a : ndarray) (N H W C : nat) :
  supported (shape a) N H W C -> wf a ->
  exists out,
    normalize_frames a = Ok out /\
    shape out = [N; H; W; 3%nat] /\
    wf out /\
    (forall p c, (p < N * H * W)%nat -> (c < 3)%nat ->
       nth (3 * p + c) (data out) 0 = nth (src_index C p c) (data a) 0) /\
    (C = 3%nat -> out = mk_ndarray [N; H; W; 3%nat] (data a)).
Proof.
  destruct a as [sh d]. unfold wf. cbn [shape data].
  intros Hs Hwf.
  assert (Hrep : forall n h w, length d = size [n; h; w; 1%nat] ->
            (forall p c, (p < n * h * w)%nat -> (c < 3)%nat ->
               nth (3 * p + c) (flat_map (fun x => List.repeat x 3) d) 0 =
               nth (src_index 1 p c) d 0) /\
            length (flat_map (fun x => List.repeat x 3) d) =
            size [n; h; w; 3%nat]).
  { intros n h w Hl. split.
    - intros p c _ Hc. now apply nth_triplicate.
    - rewrite length_triplicate, Hl. cbn [size fold_right]. lia. }
  assert (Hcut : forall n h w, length d = size [n; h; w; 4%nat] ->
            (forall p c, (p < n * h * w)%nat -> (c < 3)%nat ->
               nth (3 * p + c)
                 (concat (map (firstn 3) (chunks 4 (n * (h * (w * 1))) d))) 0 =
               nth (src_index 4 p c) d 0) /\
            length (concat (map (firstn 3) (chunks 4 (n * (h * (w * 1))) d))) =
            size [n; h; w; 3%nat]).
  { intros n h w Hl. cbn [size fold_right] in Hl. split.
    - intros p c Hp Hc. apply nth_drop_alpha; lia.
    - rewrite length_drop_alpha by lia. cbn [size fold_right]. lia. }
  inversion Hs as [H' W' | H' W' C' HC | N' H' W' HW | N' H' W' C' HC]; subst.
  - (* one grayscale frame *)
    destruct (Hrep 1%nat H W) as [Hpx Hlen];
      [cbn [size fold_right] in *; lia |].
    eexists. split; [reflexivity |]. cbn.
    split; [reflexivity |]. split; [exact Hlen |].
    split; [| discriminate].
    intros p c Hp Hc. apply Hpx; lia.
  - (* one frame with channels *)
    unfold normalize_frames. cbn [shape length Nat.eqb last_axis List.last].
    rewrite HC. cbn [newaxis_front shape data last_axis List.last].
    destruct (in_134_cases _ HC) as [-> | [-> | ->]]; cbn [Nat.eqb].
    + destruct (Hrep 1%nat H W) as [Hpx Hlen];
        [cbn [size fold_right] in *; lia |].
      eexists. split; [reflexivity |]. cbn.
      split; [reflexivity |]. split; [exact Hlen |].
      split; [| discriminate].
      intros p c Hp Hc. apply Hpx; lia.
    + eexists. split; [reflexivity |]. cbn [newaxis_front shape data].
      split; [reflexivity |].
      split; [cbn [size fold_right] in *; lia |].
      split; [reflexivity | reflexivity].
    + destruct (Hcut 1%nat H W) as [Hpx Hlen];
        [cbn [size fold_right] in *; lia |].
      eexists. split; [reflexivity |].
      unfold slice_last, outer. cbn [shape data removelast last_axis List.last
                                     app Nat.min size fold_right].
      split; [reflexivity |]. split; [exact Hlen |].
      split; [| discriminate].
      intros p c Hp Hc. apply Hpx; lia.
  - (* a stack of grayscale frames *)
    unfold normalize_frames. cbn [shape length Nat.eqb last_axis List.last].
    rewrite HW. cbn.
    destruct (Hrep N H W) as [Hpx Hlen];
      [cbn [size fold_right] in *; lia |].
    eexists. split; [reflexivity |]. cbn.
    split; [reflexivity |]. split; [exact Hlen |].
    split; [| discriminate].
    intros p c Hp Hc. apply Hpx; lia.
  - (* frames with channels *)
    unfold normalize_frames. cbn [shape length Nat.eqb last_axis List.last].
    destruct (in_134_cases _ HC) as [-> | [-> | ->]]; cbn [Nat.eqb].
    + destruct (Hrep N H W) as [Hpx Hlen]; [exact Hwf |].
      eexists. split; [reflexivity |]. cbn.
      split; [reflexivity |]. split; [exact Hlen |].
      split; [exact Hpx | discriminate].
    + eexists. split; [reflexivity |]. cbn [shape data].
      split; [reflexivity |]. split; [exact Hwf |].
      split; [reflexivity | reflexivity].
    + destruct (Hcut N H W) as [Hpx Hlen]; [exact Hwf |].
      eexists. split; [reflexivity |].
      unfold slice_last, outer. cbn [shape data removelast last_axis List.last
                                     app Nat.min size fold_right].
      split; [reflexivity |]. split; [exact Hlen |].
      split; [exact Hpx | discriminate].
Qed.

Lemma normalize_frames_rgb_witness :
  supported (shape (mk_ndarray [1; 1; 4]%nat [10; 20; 30; 255])) 1 1 1 4 /\
  wf (mk_ndarray [1; 1; 4]%nat [10; 20; 30; 255]) /\
  exists out,
    normalize_frames (mk_ndarray [1; 1; 4]%nat [10; 20; 30; 255]) = Ok out /\
    shape out = [1; 1; 1; 3]%nat /\
    wf out /\
    (forall p c, (p < 1 * 1 * 1)%nat -> (c < 3)%nat ->
       nth (3 * p + c) (data out) 0 =
       nth (src_index 4 p c) [10; 20; 30; 255] 0) /\
    (4%nat = 3%nat -> out = mk_ndarray [1; 1; 1; 3]%nat [10; 20; 30; 255]).
Proof.
  split; [apply single_frame; reflexivity |].
  split; [reflexivity |].
  apply (normalize_frames_rgb (mk_ndarray [1; 1; 4]%nat [10; 20; 30; 255]));
    [apply single_frame; reflexivity | reflexivity].
Defined.

(** C6 as stated fails on a 4-D input: a two-channel stack comes back with
    its two channels. *)
Lemma two_channel_stack_unchanged :
  wf two_channel_stack /\
  length (shape two_channel_stack) = 4%nat /\
  normalize_frames two_channel_stack = Ok two_channel_stack /\
  forall N H W, shape two_channel_stack <> [N; H; W; 3%nat].
Proof.
  split; [reflexivity |]. split; [reflexivity |]. split; [reflexivity |].
  intros N H W. discriminate.
Qed.

(** * Sequential relabelling *)

Lemma in_insert_unique (x y : Z) (l : list Z) :
  In x (insert_unique y l) <-> x = y \/ In x l.
Proof.
  induction l as [| z l IH]; cbn [insert_unique In]; [intuition |].
  destruct (Z.ltb_spec y z); [cbn [In]; intuition |].
  destruct (Z.eqb_spec y z); cbn [In]; [subst; intuition | rewrite IH; intuition].
Qed.

Lemma ascending_insert_unique (y : Z) (l : list Z) :
  StronglySorted Z.lt l -> StronglySorted Z.lt (insert_unique y l).
Proof.
  induction 1 as [| z l Hs IH Hz]; cbn [insert_unique]; [repeat constructor |].
  destruct (Z.ltb_spec y z).
  - constructor; [now constructor |].
    constructor; [assumption |].
    eapply List.Forall_impl; [| exact Hz]. intros; lia.
  - destruct (Z.eqb_spec y z); [now constructor |].
    constructor; [assumption |].
    apply List.Forall_forall. intros x Hx. apply in_insert_unique in Hx.
    destruct Hx as [-> | Hx]; [lia |].
    now apply (proj1 (List.Forall_forall _ _) Hz).
Qed.

Lemma in_np_unique (x : Z) (l : list Z) : In x (np_unique l) <-> In x l.
Proof.
  induction l as [| y l IH]; cbn [np_unique fold_right In]; [tauto |].
  fold (np_unique l). rewrite in_insert_unique, IH. intuition.
Qed.

Lemma ascending_np_unique (l : list Z) : StronglySorted Z.lt (np_unique l).
Proof.
  induction l as [| y l IH]; cbn [np_unique fold_right]; [constructor |].
  now apply ascending_insert_unique.
Qed.

Lemma ascending_filter (f : Z -> bool) (l : list Z) :
  StronglySorted Z.lt l -> StronglySorted Z.lt (List.filter f l).
Proof.
  induction 1 as [| z l Hs IH Hz]; cbn [List.filter]; [constructor |].
  destruct (f z); [| assumption].
  constructor; [assumption |].
  apply List.Forall_forall. intros x Hx. apply filter_In in Hx.
  now apply (proj1 (List.Forall_forall _ _) Hz).
Qed.

Lemma in_nonzero (x : Z) (l : list Z) : In x (nonzero l) <-> In x l /\ x <> 0.
Proof.
  unfold nonzero. rewrite filter_In.
  destruct (Z.eqb_spec x 0); cbn [negb]; intuition congruence.
Qed.

(** The cell ids found in a label array. *)
Lemma in_unique_cells (x : Z) (d : list Z) :
  In x (nonzero (np_unique d)) <-> In x d /\ x <> 0.
Proof. now rewrite in_nonzero, in_np_unique. Qed.

Lemma ascending_unique_cells (d : list Z) : StronglySorted Z.lt (nonzero (np_unique d)).
Proof. apply ascending_filter, ascending_np_unique. Qed.

(** Two StronglySorted Z.lt lists with the same elements are the same list. *)
Lemma ascending_ext (l1 l2 : list Z) :
  StronglySorted Z.lt l1 -> StronglySorted Z.lt l2 -> (forall x, In x l1 <-> In x l2) -> l1 = l2.
Proof.
  intros H1. revert l2.
  induction H1 as [| a l1 Hs1 IH Ha]; intros l2 H2 Heq.
  - destruct l2 as [| b l2]; [reflexivity |].
    exfalso. apply (proj2 (Heq b)). now left.
  - destruct H2 as [| b l2 Hs2 Hb].
    + exfalso. apply (proj1 (Heq a)). now left.
    + rewrite List.Forall_forall in Ha, Hb.
      assert (a = b) as <-.
      { destruct (proj1 (Heq a) (or_introl eq_refl)) as [E | Hin];
          [now symmetry |].
        destruct (proj2 (Heq b) (or_introl eq_refl)) as [E | Hin'];
          [assumption |].
        specialize (Ha _ Hin'). specialize (Hb _ Hin). lia. }
      f_equal. apply IH; [assumption |].
      intros x. split; intros Hx.
      * destruct (proj1 (Heq x) (or_intror Hx)) as [E | Hin]; [| assumption].
        specialize (Ha _ Hx). lia.
      * destruct (proj2 (Heq x) (or_intror Hx)) as [E | Hin]; [| assumption].
        specialize (Hb _ Hx). lia.
Qed.

Lemma length_arange1 (n : nat) : length (arange1 n) = n.
Proof. unfold arange1. now rewrite length_map, length_seq. Qed.

Lemma in_arange1 (x : Z) (n : nat) : In x (arange1 n) <-> 1 <= x <= Z.of_nat n.
Proof.
  unfold arange1. rewrite in_map_iff. split.
  - intros (i & <- & Hi). apply in_seq in Hi. lia.
  - intros Hx. exists (Z.to_nat x). split; [lia |]. apply in_seq. lia.
Qed.

Lemma ascending_from (s n : nat) : StronglySorted Z.lt (map Z.of_nat (seq s n)).
Proof.
  revert s. induction n as [| n IH]; intros s; cbn [seq map]; constructor.
  - apply IH.
  - apply List.Forall_forall. intros x Hx. apply in_map_iff in Hx.
    destruct Hx as (i & <- & Hi). apply in_seq in Hi. lia.
Qed.

Lemma ascending_NoDup (l : list Z) : StronglySorted Z.lt l -> List.NoDup l.
Proof.
  induction 1 as [| z l Hs IH Hz]; constructor; [| assumption].
  intros Hin. rewrite List.Forall_forall in Hz. specialize (Hz _ Hin). lia.
Qed.

Lemma canonical_unique_cells (a : ndarray) (n : nat) :
  canonical a n -> nonzero (np_unique (data a)) = arange1 n.
Proof.
  intros Hc. apply ascending_ext.
  - apply ascending_unique_cells.
  - apply ascending_from.
  - intros x. rewrite in_unique_cells, in_arange1. apply Hc.
Qed.

Lemma assign_where_map (sh : list nat) (g : Z -> Z) (masks : ndarray)
  (original_id new_id : Z) :
  assign_where (mk_ndarray sh (map g (data masks)))
               (eq_mask masks original_id) new_id =
  mk_ndarray sh
    (map (fun v => if v =? original_id then new_id else g v) (data masks)).
Proof.
  unfold assign_where, eq_mask. cbn [shape data]. f_equal.
  induction (data masks) as [| v d IH]; [reflexivity |].
  cbn [map zip_with]. now rewrite IH.
Qed.

Lemma relabel_loop (sh : list nat) (masks : ndarray) (pairs : list (Z * Z))
  (g : Z -> Z) :
  fold_left
    (fun dst '(new_id, original_id) =>
       assign_where dst (eq_mask masks original_id) new_id)
    pairs (mk_ndarray sh (map g (data masks))) =
  mk_ndarray sh (map (fun v => relabel_value pairs v (g v)) (data masks)).
Proof.
  revert g. induction pairs as [| [new_id original_id] pairs IH]; intros g.
  - reflexivity.
  - cbn [fold_left]. rewrite assign_where_map, IH. reflexivity.
Qed.

Lemma relabel_pointwise (masks : ndarray) (pairs : list (Z * Z)) :
  relabel masks pairs =
  mk_ndarray (shape masks)
    (map (fun v => relabel_value pairs v 0) (data masks)).
Proof. unfold relabel, zeros_like. apply relabel_loop. Qed.

Lemma relabel_value_absent (ids u : list Z) (v init : Z) :
  ~ In v u -> relabel_value (combine ids u) v init = init.
Proof.
  revert ids init. induction u as [| x u IH]; intros ids init Hv.
  - now destruct ids.
  - destruct ids as [| i ids]; [reflexivity |].
    unfold relabel_value. cbn [combine fold_left].
    destruct (Z.eqb_spec v x) as [-> | _]; [exfalso; apply Hv; now left |].
    apply IH. intros Hin. apply Hv. now right.
Qed.

Lemma relabel_value_at (s : nat) (u : list Z) (i : nat) (v init : Z) :
  List.NoDup u -> nth_error u i = Some v ->
  relabel_value (combine (map Z.of_nat (seq s (length u))) u) v init =
  Z.of_nat (s + i).
Proof.
  revert s i init. induction u as [| x u IH]; intros s i init Hnd Hi.
  - now destruct i.
  - inversion Hnd as [| ? ? Hx Hnd']; subst.
    unfold relabel_value. cbn [length seq map combine fold_left].
    destruct i as [| i].
    + injection Hi as ->. rewrite Z.eqb_refl.
      fold (relabel_value (combine (map Z.of_nat (seq (S s) (length u))) u)
              v (Z.of_nat s)).
      rewrite relabel_value_absent by assumption. f_equal. lia.
    + cbn [nth_error] in Hi.
      fold (relabel_value (combine (map Z.of_nat (seq (S s) (length u))) u)
              v (if v =? x then Z.of_nat s else init)).
      rewrite (IH (S s) i) by assumption. f_equal. lia.
Qed.

(** The value written for a raw label by the loop over
    [enumerate(unique_cells, 1)]. *)
Lemma relabel_value_enumerate (d : list Z) (v : Z) :
  let u := nonzero (np_unique d) in
  (~ In v u -> relabel_value (enumerate1 u) v 0 = 0) /\
  (forall i, nth_error u i = Some v ->
     relabel_value (enumerate1 u) v 0 = Z.of_nat (S i)).
Proof.
  intros u. split.
  - apply relabel_value_absent.
  - intros i Hi. unfold enumerate1, arange1.
    apply (relabel_value_at 1 u i v 0); [| exact Hi].
    apply ascending_NoDup, ascending_unique_cells.
Qed.

(** Relabelling always produces a canonical image. *)
Lemma relabel_canonical (masks : ndarray) :
  let u := nonzero (np_unique (data masks)) in
  canonical (relabel masks (enumerate1 u)) (length u).
Proof.
  intros u v. rewrite relabel_pointwise. cbn [data].
  assert (Hrv : forall w,
             (~ In w u -> relabel_value (enumerate1 u) w 0 = 0) /\
             (forall i, nth_error u i = Some w ->
                relabel_value (enumerate1 u) w 0 = Z.of_nat (S i)))
    by (intros w; apply relabel_value_enumerate).
  split.
  - intros [Hin Hv]. apply in_map_iff in Hin. destruct Hin as (w & Hw & Hin).
    destruct (Hrv w) as [Habs Hat].
    destruct (in_dec Z.eq_dec w u) as [Hu | Hu].
    + apply In_nth_error in Hu. destruct Hu as [i Hi].
      pose proof (proj1 (nth_error_Some u i) ltac:(congruence)) as Hlt.
      rewrite (Hat i Hi) in Hw. lia.
    + rewrite (Habs Hu) in Hw. congruence.
  - intros Hv.
    destruct (nth_error u (Z.to_nat (v - 1))) as [w |] eqn:Hw.
    + pose proof (nth_error_In _ _ Hw) as Hin.
      apply in_unique_cells in Hin. destruct Hin as [Hin _].
      destruct (Hrv w) as [_ Hat]. specialize (Hat _ Hw).
      split; [| lia].
      apply in_map_iff. exists w. split; [| exact Hin]. rewrite Hat. lia.
    + apply nth_error_None in Hw. lia.
Qed.

(** Relabelling a canonical image changes nothing. *)
Lemma relabel_canonical_id (a : ndarray) (n : nat) :
  canonical a n -> relabel a (enumerate1 (arange1 n)) = a.
Proof.
  intros Hc. rewrite relabel_pointwise. destruct a as [sh d]. cbn [shape data].
  f_equal. rewrite <- (map_id d) at 2. apply map_ext_in. intros v Hv.
  pose proof (canonical_unique_cells _ _ Hc) as Hu. cbn [data] in Hu.
  destruct (relabel_value_enumerate d v) as [Habs Hat]. rewrite Hu in Habs, Hat.
  destruct (Z.eq_dec v 0) as [-> | Hnz].
  - apply Habs. rewrite in_arange1. lia.
  - assert (1 <= v <= Z.of_nat n) as Hr by (apply Hc; now split).
    rewrite (Hat (Z.to_nat (v - 1))); [lia |].
    unfold arange1. rewrite nth_error_map, nth_error_nth' with (d := 0%nat)
      by (rewrite length_seq; lia).
    rewrite seq_nth by lia. cbn [option_map]. f_equal. lia.
Qed.

Lemma sequential_labels_canonical (a : ndarray) (n : nat) :
  canonical a n -> sequential_labels a = (a, arange1 n).
Proof.
  intros Hc. unfold sequential_labels.
  rewrite (canonical_unique_cells _ _ Hc), length_arange1.
  now rewrite bool_decide_eq_true_2.
Qed.

(** Whatever the input, the mask used by the analysis is canonical and its
    cell ids are 1..K. *)
Lemma sequential_labels_spec (masks : ndarray) :
  let K := length (nonzero (np_unique (data masks))) in
  canonical (fst (sequential_labels masks)) K /\
  snd (sequential_labels masks) = arange1 K /\
  shape (fst (sequential_labels masks)) = shape masks /\
  length (data (fst (sequential_labels masks))) = length (data masks).
Proof.
  intros K. unfold sequential_labels. fold K.
  destruct (bool_decide_reflect
              (nonzero (np_unique (data masks)) = arange1 K)) as [Hu | Hu];
    cbn [fst snd].
  - split; [| split; [exact Hu | split; reflexivity]].
    intros v. rewrite <- in_arange1, <- Hu. symmetry. apply in_unique_cells.
  - split; [apply relabel_canonical |].
    split; [reflexivity |].
    rewrite relabel_pointwise. cbn [shape data].
    split; [reflexivity | apply length_map].
Qed.

Lemma combine_diag {A} (l : list A) : combine l l = map (fun x => (x, x)) l.
Proof. induction l as [| x l IH]; cbn [combine map]; now rewrite ?IH. Qed.

Lemma process_mask_relabel_spec (mask : ndarray) :
  let u := nonzero (np_unique (data mask)) in
  process_mask_relabel mask =
  (relabel mask (enumerate1 u), map (fun '(s, o) => (o, s)) (enumerate1 u)).
Proof.
  intros u. unfold process_mask_relabel, relabel. fold u. f_equal.
  generalize (zeros_like mask).
  induction (enumerate1 u) as [| [s o] pairs IH]; intros dst; [reflexivity |].
  cbn [map fold_left]. apply IH.
Qed.

Lemma process_mask_relabel_canonical (a : ndarray) (n : nat) :
  canonical a n -> process_mask_relabel a = (a, identity_map n).
Proof.
  intros Hc. rewrite process_mask_relabel_spec.
  rewrite (canonical_unique_cells _ _ Hc), (relabel_canonical_id _ _ Hc).
  f_equal. unfold enumerate1, identity_map.
  rewrite length_arange1, combine_diag, map_map. reflexivity.
Qed.

(** C7: a canonical label image comes back unchanged, with the identity
    ID map, from both relabelling sites; hence relabelling twice is the
    same as relabelling once, for every raw label image. *)
Theorem canonicalize_idempotent :
  (forall a n, canonical a n ->
     sequential_labels a = (a, arange1 n) /\
     process_mask_relabel a = (a, identity_map n)) /\
  (forall x,
     sequential_labels (fst (sequential_labels x)) = sequential_labels x /\
     fst (process_mask_relabel (fst (process_mask_relabel x))) =
     fst (process_mask_relabel x) /\
     snd (process_mask_relabel (fst (process_mask_relabel x))) =
     identity_map (length (snd (process_mask_relabel x)))).
Proof.
  split.
  - intros a n Hc. split.
    + now apply sequential_labels_canonical.
    + now apply process_mask_relabel_canonical.
  - intros x. split.
    + destruct (sequential_labels_spec x) as (Hc & Hs & _).
      rewrite (sequential_labels_canonical _ _ Hc).
      rewrite <- Hs. now destruct (sequential_labels x).
    + rewrite (process_mask_relabel_spec x). cbn [fst snd].
      rewrite (process_mask_relabel_canonical _ _ (relabel_canonical x)).
      cbn [fst snd]. split; [reflexivity |].
      unfold enumerate1. rewrite length_map, length_combine, length_arange1.
      now rewrite Nat.min_id.
Qed.

Lemma one_cell_canonical : canonical one_cell 1.
Proof.
  intros v. cbn. split.
  - intros [[<- | []] _]. lia.
  - intros Hv. split; [left |]; lia.
Qed.

Lemma canonicalize_idempotent_witness :
  canonical one_cell 1 /\
  sequential_labels one_cell = (one_cell, [1]) /\
  process_mask_relabel one_cell = (one_cell, [(1, 1)]).
Proof.
  assert (Hc : canonical one_cell 1).
  { intros v. cbn. split.
    - intros [[<- | []] _]. lia.
    - intros Hv. split; [left |]; lia. }
  split; [exact Hc |].
  exact (proj1 canonicalize_idempotent one_cell 1%nat Hc).
Defined.

(** * Means of integer readings *)

Lemma Qred_inject_Z (z : Z) : Qred (inject_Z z) = inject_Z z.
Proof. apply Qcanon.Qred_identity. cbn. apply Z.gcd_1_r. Qed.

Lemma fl_add_ints (a b : Z) : fl_add (fl_of_Z a) (fl_of_Z b) = fl_of_Z (a + b).
Proof.
  unfold fl_of_Z. cbn [fl_add]. f_equal.
  rewrite <- (Qred_inject_Z (a + b)). now rewrite inject_Z_plus.
Qed.

Lemma fl_sum_ints (l : list Z) (a : Z) :
  fold_left fl_add (map fl_of_Z l) (fl_of_Z a) = fl_of_Z (a + sum_Z l).
Proof.
  revert a. induction l as [| x l IH]; intros a; cbn [map fold_left sum_Z fold_right].
  - now rewrite Z.add_0_r.
  - rewrite fl_add_ints, IH. fold (sum_Z l). f_equal. lia.
Qed.

Lemma count_not_zero (n : nat) : Qzero (inject_Z (Z.of_nat (S n))) = false.
Proof.
  unfold Qzero. destruct (Qeq_bool _ _) eqn:E; [| reflexivity].
  apply Qeq_bool_eq in E. unfold Qeq in E. cbn [Qnum Qden inject_Z] in E. lia.
Qed.

(** [np.mean] of a non-empty selection of integers is their arithmetic
    mean; of an empty selection it is [nan]. *)
Lemma np_mean_ints (l : list Z) :
  l <> [] -> np_mean (map fl_of_Z l) = Fin (Qred (arithmetic_mean l)).
Proof.
  intros Hl. unfold np_mean, fl_sum.
  change (Fin 0%Q) with (fl_of_Z 0). rewrite fl_sum_ints, length_map.
  destruct l as [| x l]; [congruence |].
  unfold fl_of_nat, fl_of_Z. cbn [fl_div length].
  now rewrite count_not_zero.
Qed.

Lemma np_mean_empty : np_mean [] = NaN.
Proof. reflexivity. Qed.

Lemma members_nonempty (masks : ndarray) (c : Z) :
  In c (data masks) -> members masks c <> [].
Proof.
  intros Hin. destruct (In_nth _ _ 0 Hin) as (p & Hp & Hnth).
  assert (In p (members masks c)) as Hm.
  { unfold members. apply filter_In. split; [apply in_seq; lia |].
    rewrite Hnth. apply Z.eqb_refl. }
  intros E. rewrite E in Hm. destruct Hm.
Qed.

Lemma mean_reading_arithmetic (rgb : bool) (frames masks : ndarray)
  (f : nat) (c : Z) :
  In c (data masks) ->
  mean_reading rgb frames masks f c =
  Fin (Qred (arithmetic_mean
               (map (reading rgb frames (length (data masks)) f)
                    (members masks c)))).
Proof.
  intros Hin. unfold mean_reading. rewrite <- map_map.
  apply np_mean_ints. intros E. apply map_eq_nil in E.
  now apply (members_nonempty masks c).
Qed.

(** * Intensity extraction *)

Section Selection.
Context {A B C : Type}.

Lemma filter_map (f : B -> bool) (h : A -> B) (l : list A) :
  List.filter f (map h l) = map h (List.filter (fun x => f (h x)) l).
Proof.
  induction l as [| x l IH]; [reflexivity |].
  cbn [map List.filter]. destruct (f (h x)); cbn [map]; now rewrite IH.
Qed.

Lemma combine_map_map (f : A -> B) (g : A -> C) (l : list A) :
  combine (map f l) (map g l) = map (fun x => (f x, g x)) l.
Proof. induction l as [| x l IH]; cbn [map combine]; now rewrite ?IH. Qed.

Lemma concat_singletons (f : A -> B) (l : list A) :
  concat (map (fun x => [f x]) l) = map f l.
Proof. induction l as [| x l IH]; cbn [map concat app]; now rewrite ?IH. Qed.
End Selection.

(** Boolean indexing with a mask of the shape of the array keeps the
    elements at the positions where the mask holds. *)
Lemma select_by_mask (M G : nat -> Z) (n : nat) (c : Z) :
  concat (map snd (List.filter fst
    (combine (map (fun x => x =? c) (map M (seq 0 n)))
             (map (fun x => [x]) (map G (seq 0 n)))))) =
  map G (List.filter (fun p => M p =? c) (seq 0 n)).
Proof.
  rewrite !map_map, combine_map_map, filter_map, map_map. cbn [fst snd].
  apply concat_singletons.
Qed.

Lemma cell_intensity_members (sh : list nat) (G : nat -> Z) (masks : ndarray)
  (c : Z) :
  shape masks = sh -> length (data masks) = size sh ->
  cell_intensity (mk_ndarray sh (map G (seq 0 (size sh)))) masks c =
  Ok (np_mean (map (fun p => fl_of_Z (G p)) (members masks c))).
Proof.
  intros Hsh Hlen. unfold cell_intensity, bool_index, eq_mask, members.
  cbn [shape data]. rewrite Hsh, firstn_all, bool_decide_eq_true_2 by reflexivity.
  rewrite skipn_all. cbn [size fold_right bind].
  change (fold_right Nat.mul 1%nat sh) with (size sh).
  replace (chunks 1 (size sh) (map G (seq 0 (size sh))))
    with (map (fun x => [x]) (map G (seq 0 (size sh)))).
  2:{ rewrite <- chunks_one. now rewrite length_map, length_seq. }
  rewrite (list_as_seq (data masks) 0) at 1. rewrite Hlen.
  rewrite select_by_mask, map_map. reflexivity.
Qed.

Lemma frame_records_spec (rgb : bool) (frames masks : ndarray)
  (cells : list Z) (N H W f : nat) :
  shape frames = frame_shape rgb N H W -> shape masks = [H; W] ->
  wf frames -> wf masks -> (f < N)%nat ->
  let rest := tl (frame_shape rgb N H W) in
  frame_records masks cells
    (f, mk_ndarray rest
          (firstn (size rest) (skipn (f * size rest) (data frames)))) =
  Ok (map (fun c => mk_record f c (mean_reading rgb frames masks f c)) cells).
Proof.
  intros Hf Hm Hwf Hwm HfN rest. unfold wf in Hwf, Hwm.
  rewrite Hf in Hwf. rewrite Hm in Hwm.
  unfold frame_records. cbn [fst snd].
  destruct rgb; cbn [frame_shape tl] in *; subst rest.
  - (* (N, H, W, 3): the green channel *)
    unfold select_channel, index_last, outer.
    cbn [shape data length Nat.eqb last_axis List.last removelast Nat.ltb Nat.leb
         bind].
    rewrite channel_of_chunks by lia.
    apply for_each_map. intros c _.
    rewrite (cell_intensity_members [H; W]) by assumption.
    cbn [bind]. do 2 f_equal. unfold mean_reading. f_equal.
    apply map_ext_in. intros p Hp. unfold members in Hp.
    apply filter_In in Hp. destruct Hp as [Hp _]. apply in_seq in Hp.
    unfold reading. f_equal.
    rewrite nth_block by (cbn [size fold_right] in *; lia).
    f_equal. cbn [size fold_right] in *. lia.
  - (* (N, H, W): the value itself *)
    unfold select_channel. cbn [shape length Nat.eqb bind].
    apply for_each_map. intros c _.
    set (blk := firstn _ _).
    assert (Hblk : length blk = size [H; W]).
    { subst blk. rewrite length_firstn, length_skipn, Hwf.
      cbn [size fold_right]. nia. }
    rewrite (list_as_seq blk 0), Hblk.
    rewrite (cell_intensity_members [H; W]) by assumption.
    cbn [bind]. do 2 f_equal. unfold mean_reading. f_equal.
    apply map_ext_in. intros p Hp. unfold members in Hp.
    apply filter_In in Hp. destruct Hp as [Hp _]. apply in_seq in Hp.
    unfold reading. f_equal. subst blk.
    rewrite nth_block by lia. f_equal. lia.
Qed.

Lemma extract_records_spec (rgb : bool) (frames masks : ndarray)
  (cells : list Z) (N H W : nat) :
  shape frames = frame_shape rgb N H W -> shape masks = [H; W] ->
  wf frames -> wf masks ->
  extract_records frames masks cells =
  Ok (flat_map
        (fun f => map (fun c => mk_record f c (mean_reading rgb frames masks f c))
                      cells)
        (seq 0 N)).
Proof.
  intros Hf Hm Hwf Hwm. unfold extract_records, iter_axis0.
  assert (Hsh : shape frames = N :: tl (frame_shape rgb N H W))
    by (rewrite Hf; now destruct rgb).
  rewrite Hsh. cbn [bind].
  rewrite chunks_seq, map_map, length_map, length_seq, combine_seq_map.
  rewrite (for_each_map _
    (fun fi => map (fun c => mk_record (fst fi) c
                               (mean_reading rgb frames masks (fst fi) c))
                   cells)).
  - cbn [bind]. now rewrite flat_map_concat_map, map_map.
  - intros fi Hfi. apply in_map_iff in Hfi. destruct Hfi as (f & <- & Hf').
    apply in_seq in Hf'. cbn [fst].
    apply (frame_records_spec rgb frames masks cells N H W f);
      [assumption .. | lia].
Qed.

Section Sorted.
Context {A : Type} (R : A -> A -> Prop).

Lemma StronglySorted_append (l1 l2 : list A) :
  StronglySorted R l1 -> StronglySorted R l2 ->
  (forall x y, In x l1 -> In y l2 -> R x y) ->
  StronglySorted R (l1 ++ l2).
Proof.
  induction 1 as [| a l1 Hs IH Ha]; intros H2 Hc; [assumption |].
  cbn [app]. constructor.
  - apply IH; [assumption |]. intros x y Hx. apply Hc. now right.
  - apply Forall_app. split; [assumption |].
    apply List.Forall_forall. intros y Hy. apply Hc; [now left | assumption].
Qed.

Lemma StronglySorted_split (l1 l2 : list A) :
  StronglySorted R (l1 ++ l2) ->
  forall x y, In x l1 -> In y l2 -> R x y.
Proof.
  induction l1 as [| a l1 IH]; intros Hs x y Hx Hy; [destruct Hx |].
  cbn [app] in Hs. apply StronglySorted_inv in Hs. destruct Hs as [Hs Ha].
  destruct Hx as [-> | Hx].
  - rewrite List.Forall_forall in Ha. apply Ha, in_or_app. now right.
  - now apply IH.
Qed.
End Sorted.

Lemma records_sorted (g : nat -> Z -> float) (cells : list Z) (s n : nat) :
  StronglySorted Z.lt cells ->
  StronglySorted before
    (flat_map (fun f => map (fun c => mk_record f c (g f c)) cells) (seq s n)).
Proof.
  intros Hc. revert s. induction n as [| n IH]; intros s; [constructor |].
  cbn [seq flat_map]. apply StronglySorted_append.
  - clear IH. induction Hc as [| c cells Hs IHc Hlt]; cbn [map]; constructor.
    + exact IHc.
    + apply List.Forall_forall. intros r Hr. apply in_map_iff in Hr.
      destruct Hr as (c' & <- & Hc'). right. cbn [frame cell_id].
      rewrite List.Forall_forall in Hlt. split; [reflexivity | now apply Hlt].
  - apply IH.
  - intros x y Hx Hy. apply in_map_iff in Hx. destruct Hx as (c & <- & _).
    apply in_flat_map in Hy. destruct Hy as (f & Hf & Hy).
    apply in_map_iff in Hy. destruct Hy as (c' & <- & _).
    apply in_seq in Hf. left. cbn [frame]. lia.
Qed.

Lemma length_records {A B} (g : nat -> A -> B) (cells : list A) (s n : nat) :
  length (flat_map (fun f => map (g f) cells) (seq s n)) =
  (n * length cells)%nat.
Proof.
  revert s. induction n as [| n IH]; intros s; [reflexivity |].
  cbn [seq flat_map]. rewrite length_app, length_map, IH. lia.
Qed.

(** C1: over a (N, H, W, 3) tensor (green channel) or a (N, H, W) tensor
    (the value itself) and a canonical H x W label image with K cells,
    extraction yields one record per frame 0..N-1 and cell 1..K, holding
    the mean reading over the pixels that carry the cell's label, frames
    ascending and cell ids ascending within a frame. *)
Theorem extraction_means (rgb : bool) (frames masks : ndarray)
  (N H W K : nat) :
  shape frames = frame_shape rgb N H W -> shape masks = [H; W] ->
  wf frames -> wf masks -> canonical masks K ->
  sequential_labels masks = (masks, arange1 K) /\
  exists rs,
    extract_records frames masks (arange1 K) = Ok rs /\
    rs = flat_map
           (fun f => map (fun c => mk_record f c
                                     (mean_reading rgb frames masks f c))
                         (arange1 K))
           (seq 0 N) /\
    (forall r, In r rs <->
       exists f c, (f < N)%nat /\ 1 <= c <= Z.of_nat K /\
         r = mk_record f c (mean_reading rgb frames masks f c)) /\
    length rs = (N * K)%nat /\
    StronglySorted before rs /\
    (forall f c, 1 <= c <= Z.of_nat K ->
       mean_reading rgb frames masks f c =
       Fin (Qred (arithmetic_mean
                    (map (reading rgb frames (H * W) f) (members masks c))))).
Proof.
  intros Hf Hm Hwf Hwm Hc.
  split; [now apply sequential_labels_canonical |].
  eexists. split; [now apply (extract_records_spec rgb _ _ _ N H W) |].
  split; [reflexivity |]. split; [| split; [| split]].
  - intros r. rewrite in_flat_map. split.
    + intros (f & Hf' & Hr). apply in_map_iff in Hr.
      destruct Hr as (c & <- & Hc'). apply in_seq in Hf'.
      apply in_arange1 in Hc'. exists f, c. repeat split; lia.
    + intros (f & c & Hf' & Hc' & ->). exists f. split; [apply in_seq; lia |].
      apply in_map_iff. exists c. split; [reflexivity |].
      now apply in_arange1.
  - now rewrite length_records, length_arange1.
  - apply records_sorted, ascending_from.
  - intros f c Hc'. replace (H * W)%nat with (length (data masks))
      by (unfold wf in Hwm; rewrite Hwm, Hm; cbn [size fold_right]; lia).
    apply mean_reading_arithmetic. now apply Hc.
Qed.

Lemma extraction_means_witness :
  shape dark_frames = frame_shape true 2 1 1 /\
  shape one_cell = [1; 1]%nat /\
  wf dark_frames /\ wf one_cell /\ canonical one_cell 1 /\
  exists rs,
    extract_records dark_frames one_cell (arange1 1) = Ok rs /\
    rs = [mk_record 0 1 (fl_of_Z 0); mk_record 1 1 (fl_of_Z 5)].
Proof.
  assert (Hc : canonical one_cell 1).
  { intros v. cbn. split.
    - intros [[<- | []] _]. lia.
    - intros Hv. split; [left |]; lia. }
  repeat (split; [first [reflexivity | exact Hc] |]).
  destruct (extraction_means true dark_frames one_cell 2 1 1 1
              eq_refl eq_refl eq_refl eq_refl Hc)
    as (_ & rs & He & Hrs & _).
  exists rs. split; [exact He |]. rewrite Hrs. reflexivity.
Defined.

(** * Baselines and normalised intensity *)

Lemma baselines_fold (df : list record) (cells : list Z) (acc : gmap Z float)
  (c : Z) :
  fold_left (fun b c => <[c := baseline_of df c]> b) cells acc !! c =
  if in_dec Z.eq_dec c cells then Some (baseline_of df c) else acc !! c.
Proof.
  revert acc. induction cells as [| x cells IH]; intros acc; [reflexivity |].
  cbn [fold_left]. rewrite IH.
  destruct (in_dec Z.eq_dec c cells) as [Hin | Hout];
    destruct (in_dec Z.eq_dec c (x :: cells)) as [Hin' | Hout'];
    try reflexivity.
  - exfalso. apply Hout'. now right.
  - destruct Hin' as [-> | Hin']; [apply lookup_insert_eq | contradiction].
  - rewrite lookup_insert_ne; [reflexivity |].
    intros ->. apply Hout'. now left.
Qed.

Lemma baselines_lookup (df : list record) (cells : list Z) (c : Z) :
  baselines df cells !! c =
  if in_dec Z.eq_dec c cells then Some (baseline_of df c) else None.
Proof. unfold baselines. now rewrite baselines_fold, lookup_empty. Qed.

Lemma for_each_ok_in {A B} (f : A -> result B) (l : list A) (ys : list B) :
  for_each f l = Ok ys -> forall x, In x l -> exists y, f x = Ok y.
Proof.
  revert ys. induction l as [| a l IH]; intros ys H x Hx; [destruct Hx |].
  cbn [for_each] in H.
  destruct (f a) as [y | e] eqn:Ha; [| discriminate]. cbn [bind] in H.
  destruct (for_each f l) as [ys' | e]; [| discriminate].
  destruct Hx as [<- | Hx]; [now exists y | now apply (IH ys')].
Qed.

(** Normalisation succeeds exactly on a non-empty table whose cells all
    have a baseline, and then divides every row by its cell's baseline. *)
Lemma add_normalized_ok (df : list record) (cells : list Z) :
  df <> [] -> (forall r, In r df -> In (cell_id r) cells) ->
  add_normalized df cells = Ok (map (normalized df) df).
Proof.
  intros Hne Hcells. unfold add_normalized.
  destruct df as [| r0 df']; [congruence |].
  set (df := r0 :: df') in *. clearbody df.
  apply for_each_map. intros r Hr. unfold normalize_row.
  rewrite baselines_lookup.
  destruct (in_dec Z.eq_dec (cell_id r) cells) as [_ | Hout]; [reflexivity |].
  exfalso. apply Hout. now apply Hcells.
Qed.

Lemma add_normalized_inv (df : list record) (cells : list Z)
  (rows : list nrecord) :
  add_normalized df cells = Ok rows ->
  df <> [] /\ (forall r, In r df -> In (cell_id r) cells) /\
  rows = map (normalized df) df.
Proof.
  intros H.
  assert (Hne : df <> []).
  { intros ->. cbn in H. now destruct cells. }
  assert (Hfor : for_each (normalize_row (baselines df cells)) df = Ok rows).
  { destruct df; [congruence | exact H]. }
  assert (Hcells : forall r, In r df -> In (cell_id r) cells).
  { intros r Hr. destruct (for_each_ok_in _ _ _ Hfor r Hr) as (y & Hy).
    unfold normalize_row in Hy. rewrite baselines_lookup in Hy.
    now destruct (in_dec Z.eq_dec (cell_id r) cells). }
  split; [assumption |]. split; [assumption |].
  rewrite (add_normalized_ok df cells Hne Hcells) in H. congruence.
Qed.

Lemma fl_div_zero (x : float) (z : Q) :
  Qzero z = true -> fl_div x (Fin z) = over_zero x.
Proof.
  intros Hz. destruct x; cbn [fl_div over_zero]; rewrite ?Hz, ?orb_true_r;
    reflexivity.
Qed.

Lemma over_zero_not_finite (x : float) : ~ is_finite (over_zero x).
Proof.
  intros [q Hq]. destruct x as [p | | |]; cbn [over_zero] in Hq;
    try discriminate.
  destruct (Qzero p), (Qpos p); discriminate.
Qed.

(** C4, as the code has it: a baseline of exactly 0 is not an error.  The
    division is carried out for every row; over a zero baseline it gives
    [nan], [+inf] or [-inf] by the sign of the numerator, in
    [analyze_calcium_intensity] and in [calculate_df] alike, and over a
    non-zero baseline it gives the quotient. *)
Theorem zero_baseline_divides :
  (forall df cells,
     df <> [] -> (forall r, In r df -> In (cell_id r) cells) ->
     exists rows,
       add_normalized df cells = Ok rows /\
       forall r z, In r df ->
         baselines df cells !! cell_id r = Some (Fin z) -> Qzero z = true ->
         In (mk_nrecord r (over_zero (intensity r))) rows /\
         ~ is_finite (over_zero (intensity r))) /\
  (forall intensities k z,
     np_mean (slice_to k intensities) = Fin z -> Qzero z = true ->
     calculate_df intensities k =
     map (fun x => over_zero (fl_sub x (Fin z))) intensities) /\
  (forall x b, Qzero b = false ->
     fl_div (Fin x) (Fin b) = Fin (Qred (x / b)%Q)).
Proof.
  split; [| split].
  - intros df cells Hne Hcells. eexists. split; [now apply add_normalized_ok |].
    intros r z Hr Hb Hz. split; [| apply over_zero_not_finite].
    apply in_map_iff. exists r. split; [| assumption].
    unfold normalized. f_equal.
    rewrite baselines_lookup in Hb.
    destruct (in_dec Z.eq_dec (cell_id r) cells); [| discriminate].
    injection Hb as ->. now apply fl_div_zero.
  - intros intensities k z Hb Hz. unfold calculate_df. rewrite Hb.
    apply map_ext. intros x. now apply fl_div_zero.
  - intros x b Hb. cbn [fl_div]. now rewrite Hb.
Qed.

Lemma zero_baseline_divides_witness :
  np_mean (slice_to 10 [fl_of_Z 0; fl_of_Z 0]) = Fin 0%Q /\
  Qzero 0%Q = true /\
  calculate_df [fl_of_Z 0; fl_of_Z 0] 10 = [NaN; NaN].
Proof.
  split; [reflexivity |]. split; [reflexivity |].
  exact (proj1 (proj2 zero_baseline_divides)
           [fl_of_Z 0; fl_of_Z 0] 10 0%Q eq_refl eq_refl).
Defined.

(** C4 as stated fails: a cell whose frame-0 intensity is 0 has baseline 0,
    and the analysis returns [nan] and [+inf] for it. *)
Lemma zero_baseline_returns :
  baseline_of [mk_record 0 1 (fl_of_Z 0); mk_record 1 1 (fl_of_Z 5)] 1 =
  Fin 0%Q /\
  analyze_calcium_intensity dark_frames one_cell =
  Ok [mk_nrecord (mk_record 0 1 (fl_of_Z 0)) NaN;
      mk_nrecord (mk_record 1 1 (fl_of_Z 5)) PInf] /\
  ~ raises (analyze_calcium_intensity dark_frames one_cell).
Proof.
  split; [reflexivity |]. split; [reflexivity |].
  intros [e He]. discriminate He.
Qed.


(** ** The fallback: the smallest intensities of a cell *)

Lemma fl_leb_total (a b : float) : fl_leb a b = false -> fl_leb b a = true.
Proof.
  destruct a as [x | | |], b as [y | | |]; cbn [fl_leb]; try congruence.
  intros Hxy. apply Qle_bool_iff.
  destruct (Qlt_le_dec y x) as [Hlt | Hle]; [now apply Qlt_le_weak |].
  apply Qle_bool_iff in Hle. congruence.
Qed.

Lemma fl_leb_trans (a b c : float) :
  fl_leb a b = true -> fl_leb b c = true -> fl_leb a c = true.
Proof.
  destruct a as [x | | |], b as [y | | |], c as [z | | |]; cbn [fl_leb];
    try congruence.
  rewrite !Qle_bool_iff. apply Qle_trans.
Qed.

Lemma insert_row_perm (r : record) (l : list record) :
  Permutation (insert_row r l) (r :: l).
Proof.
  induction l as [| r' l IH]; cbn [insert_row]; [reflexivity |].
  destruct (fl_leb (intensity r) (intensity r')); [reflexivity |].
  rewrite IH. apply perm_swap.
Qed.

Lemma sort_rows_perm (l : list record) : Permutation (sort_rows l) l.
Proof.
  induction l as [| r l IH]; cbn [sort_rows fold_right]; [reflexivity |].
  fold (sort_rows l). now rewrite insert_row_perm, IH.
Qed.

Lemma insert_row_sorted (r : record) (l : list record) :
  StronglySorted not_above l -> StronglySorted not_above (insert_row r l).
Proof.
  induction 1 as [| r' l Hs IH Hr']; cbn [insert_row]; [repeat constructor |].
  destruct (fl_leb (intensity r) (intensity r')) eqn:Hle.
  - constructor; [now constructor |].
    constructor; [exact Hle |].
    eapply List.Forall_impl; [| exact Hr'].
    intros x Hx. unfold not_above in *. now apply fl_leb_trans with (intensity r').
  - constructor; [assumption |].
    apply List.Forall_forall. intros x Hx.
    apply (Permutation_in _ (insert_row_perm r l)) in Hx.
    destruct Hx as [<- | Hx].
    + now apply fl_leb_total.
    + rewrite List.Forall_forall in Hr'. now apply Hr'.
Qed.

Lemma sort_rows_sorted (l : list record) : StronglySorted not_above (sort_rows l).
Proof.
  induction l as [| r l IH]; cbn [sort_rows fold_right]; [constructor |].
  now apply insert_row_sorted.
Qed.

(** [nsmallest] picks [min n len] rows, none above any row it leaves. *)
Lemma nsmallest_spec (n : nat) (rows : list record) :
  exists rest,
    Permutation (nsmallest n rows ++ rest) rows /\
    length (nsmallest n rows) = Nat.min n (length rows) /\
    forall x y, In x (nsmallest n rows) -> In y rest -> not_above x y.
Proof.
  exists (skipn n (sort_rows rows)). unfold nsmallest. split; [| split].
  - rewrite firstn_skipn. apply sort_rows_perm.
  - rewrite length_firstn. now rewrite (Permutation_length (sort_rows_perm rows)).
  - apply StronglySorted_split. rewrite firstn_skipn. apply sort_rows_sorted.
Qed.

Lemma pd_mean_nan_free (l : list float) :
  (forall x, In x l -> x <> NaN) -> pd_mean l = np_mean l.
Proof.
  intros H. unfold pd_mean. f_equal.
  induction l as [| x l IH]; [reflexivity |]. cbn [List.filter].
  destruct x; cbn [is_nan negb];
    try (rewrite IH by (intros y Hy; apply H; now right); reflexivity).
  exfalso. apply (H NaN); [now left | reflexivity].
Qed.

Lemma filter_first {A} (f : A -> bool) (pre post : list A) (r : A) :
  (forall x, In x pre -> f x = false) -> f r = true ->
  List.filter f (pre ++ r :: post) = r :: List.filter f post.
Proof.
  intros Hpre Hr. induction pre as [| x pre IH]; cbn [app List.filter].
  - now rewrite Hr.
  - rewrite (Hpre x) by now left. apply IH. intros y Hy. apply Hpre. now right.
Qed.

Lemma filter_none {A} (f : A -> bool) (l : list A) :
  (forall x, In x l -> f x = false) -> List.filter f l = [].
Proof.
  intros H. induction l as [| x l IH]; [reflexivity |]. cbn [List.filter].
  rewrite (H x) by now left. apply IH. intros y Hy. apply H. now right.
Qed.

(** C2: on a non-empty table whose rows all belong to the listed cells (as
    every table of the analysis does) normalisation returns, with one row
    per row of the table and a baseline for exactly the listed cells.  The
    baseline of a cell is the intensity of its frame-0 row when there is
    one, and otherwise the mean of its [min(10, n)] smallest intensities
    ([n] the number of its rows); every row's normalized_intensity is its
    intensity divided by the baseline of its cell. *)
Theorem baseline_policy (df : list record) (cells : list Z) :
  df <> [] -> (forall r, In r df -> In (cell_id r) cells) ->
  exists rows,
    add_normalized df cells = Ok rows /\
    map row rows = df /\
    (forall nr, In nr rows ->
       exists b, baselines df cells !! cell_id (row nr) = Some b /\
         normalized_intensity nr = fl_div (intensity (row nr)) b) /\
    (forall c, In c cells <-> exists b, baselines df cells !! c = Some b) /\
    (forall c b, baselines df cells !! c = Some b ->
       (forall pre r post,
          df = pre ++ r :: post -> cell_id r = c -> frame r = 0%nat ->
          (forall r', In r' pre -> cell_id r' = c -> frame r' <> 0%nat) ->
          b = intensity r) /\
       ((forall r, In r df -> cell_id r = c -> frame r <> 0%nat) ->
        nan_free df c ->
        exists smallest rest,
          Permutation (smallest ++ rest) (cell_rows df c) /\
          length smallest = Nat.min 10 (length (cell_rows df c)) /\
          (forall x y, In x smallest -> In y rest -> not_above x y) /\
          b = np_mean (map intensity smallest))).
Proof.
  intros Hne Hcells. exists (map (normalized df) df).
  split; [now apply add_normalized_ok |].
  split; [| split; [| split]].
  - rewrite map_map. cbn [normalized row]. apply map_id.
  - intros nr Hnr. apply in_map_iff in Hnr. destruct Hnr as (r & <- & Hr).
    cbn [normalized row normalized_intensity].
    exists (baseline_of df (cell_id r)). split; [| reflexivity].
    rewrite baselines_lookup.
    destruct (in_dec Z.eq_dec (cell_id r) cells) as [_ | Hout]; [reflexivity |].
    exfalso. apply Hout. now apply Hcells.
  - intros c. rewrite baselines_lookup.
    destruct (in_dec Z.eq_dec c cells) as [Hin | Hout]; split.
    + intros _. now eexists.
    + intros _. exact Hin.
    + intros Hin. contradiction.
    + intros (b & Hb). discriminate Hb.
  - intros c b Hb. rewrite baselines_lookup in Hb.
    destruct (in_dec Z.eq_dec c cells) as [_ |]; [| discriminate].
    injection Hb as <-. split.
    + intros pre r post -> Hc Hf Hpre. unfold baseline_of, first_frame_data.
      rewrite filter_first; [reflexivity | |].
      * intros x Hx. destruct (Z.eqb_spec (cell_id x) c) as [E | _];
          [| reflexivity].
        destruct (Nat.eqb_spec (frame x) 0) as [E' | _]; [| reflexivity].
        now destruct (Hpre x Hx E).
      * rewrite Hc, Hf, Z.eqb_refl. reflexivity.
    + intros Hlate Hnan. unfold baseline_of, first_frame_data.
      rewrite filter_none.
      2:{ intros x Hx. destruct (Z.eqb_spec (cell_id x) c) as [E | _];
            [| reflexivity].
          destruct (Nat.eqb_spec (frame x) 0) as [E' | _]; [| reflexivity].
          now destruct (Hlate x Hx E). }
      destruct (nsmallest_spec (Nat.min 10 (length (cell_rows df c)))
                  (cell_rows df c)) as (rest & Hperm & Hlen & Hord).
      eexists _, rest. split; [exact Hperm |].
      split; [rewrite Hlen; lia |]. split; [exact Hord |].
      apply pd_mean_nan_free. intros x Hx. apply in_map_iff in Hx.
      destruct Hx as (r & <- & Hr).
      assert (In r (cell_rows df c)) as Hr'.
      { apply (Permutation_in _ Hperm), in_or_app. now left. }
      unfold cell_rows in Hr'. apply filter_In in Hr'. destruct Hr' as [Hr' Hc].
      apply Hnan; [assumption | now apply Z.eqb_eq].
Qed.

(** Scenario A of the specification (labels 5 and 7 become cells 1 and 2,
    every reading is 100): the analysis returns the normalised table, both
    baselines are the frame-0 intensity 100 and every normalised intensity
    is 1.  On the table [late_cell], whose only cell is first seen at
    frame 3, normalisation returns as well and the baseline is the mean
    16/3 of its three intensities. *)
Lemma baseline_policy_witness :
  (exists df rows,
     extract_records scenario_frames (fst (sequential_labels scenario_labels))
                     [1; 2] = Ok df /\
     df <> [] /\ (forall r, In r df -> In (cell_id r) [1; 2]) /\
     add_normalized df [1; 2] = Ok rows /\
     analyze_calcium_intensity scenario_frames scenario_labels = Ok rows /\
     map row rows = df /\
     (forall c b, baselines df [1; 2] !! c = Some b -> b = hundred) /\
     (forall nr, In nr rows -> normalized_intensity nr = one)) /\
  (late_cell <> [] /\ (forall r, In r late_cell -> In (cell_id r) [5]) /\
   (forall r, In r late_cell -> cell_id r = 5 -> frame r <> 0%nat) /\
   nan_free late_cell 5 /\
   exists rows smallest rest,
     add_normalized late_cell [5] = Ok rows /\
     baselines late_cell [5] !! 5 = Some (Fin (16 # 3)%Q) /\
     Permutation (smallest ++ rest) (cell_rows late_cell 5) /\
     length smallest = Nat.min 10 (length (cell_rows late_cell 5)) /\
     (forall x y, In x smallest -> In y rest -> not_above x y) /\
     Fin (16 # 3)%Q = np_mean (map intensity smallest)).
Proof.
  split.
  - set (df := [mk_record 0 1 hundred; mk_record 0 2 hundred;
                mk_record 1 1 hundred; mk_record 1 2 hundred;
                mk_record 2 1 hundred; mk_record 2 2 hundred]).
    assert (Hext : extract_records scenario_frames
                     (fst (sequential_labels scenario_labels)) [1; 2] = Ok df)
      by (vm_compute; reflexivity).
    assert (Hseq : sequential_labels scenario_labels =
                   (fst (sequential_labels scenario_labels), [1; 2]))
      by (vm_compute; reflexivity).
    assert (Hne : df <> []) by discriminate.
    assert (Hcells : forall r, In r df -> In (cell_id r) [1; 2]).
    { intros r Hr. repeat (destruct Hr as [<- | Hr]; [cbn; tauto |]).
      destruct Hr. }
    destruct (baseline_policy df [1; 2] Hne Hcells)
      as (rows & Hok & Hrow & Hnorm & Hkeys & Hbase).
    assert (Hb : forall c b, baselines df [1; 2] !! c = Some b -> b = hundred).
    { intros c b Hcb.
      assert (Hc : In c [1; 2]) by (apply Hkeys; now exists b).
      destruct (Hbase c b Hcb) as [Hzero _].
      destruct Hc as [<- | [<- | []]].
      - exact (Hzero [] (mk_record 0 1 hundred) (tl df) eq_refl eq_refl eq_refl
                 (fun r' (H : In r' []) => match H with end)).
      - apply (Hzero [mk_record 0 1 hundred] (mk_record 0 2 hundred)
                 (tl (tl df)) eq_refl eq_refl eq_refl).
        intros r' [<- | []] E. discriminate E. }
    exists df, rows. split; [exact Hext |]. split; [exact Hne |].
    split; [exact Hcells |]. split; [exact Hok |]. split.
    { unfold analyze_calcium_intensity. rewrite Hseq.
      cbn [fst] in Hext. rewrite Hext. exact Hok. }
    split; [exact Hrow |]. split; [exact Hb |].
    intros nr Hnr. destruct (Hnorm nr Hnr) as (b & Hcb & ->).
    rewrite (Hb _ _ Hcb).
    assert (Hin : In (row nr) df) by (rewrite <- Hrow; now apply in_map).
    repeat (destruct Hin as [<- | Hin]; [reflexivity |]). destruct Hin.
  - assert (Hne : late_cell <> []) by discriminate.
    assert (Hcells : forall r, In r late_cell -> In (cell_id r) [5]).
    { intros r [<- | [<- | [<- | []]]]; now left. }
    assert (Hlate : forall r, In r late_cell -> cell_id r = 5 ->
                              frame r <> 0%nat).
    { intros r [<- | [<- | [<- | []]]] _; discriminate. }
    assert (Hnan : nan_free late_cell 5).
    { intros r [<- | [<- | [<- | []]]] _; discriminate. }
    assert (Hb : baselines late_cell [5] !! 5 = Some (Fin (16 # 3)%Q))
      by (vm_compute; reflexivity).
    destruct (baseline_policy late_cell [5] Hne Hcells)
      as (rows & Hok & _ & _ & _ & Hbase).
    destruct (proj2 (Hbase 5 _ Hb) Hlate Hnan)
      as (smallest & rest & Hperm & Hlen & Hord & Hmean).
    split; [exact Hne |]. split; [exact Hcells |]. split; [exact Hlate |].
    split; [exact Hnan |]. now exists rows, smallest, rest.
Defined.

(** * Empty selections *)


(** ** A float mask is read through its whole-number labels *)





(** ** [nan] among the labels *)





















(** * The analysis leaves its arguments alone *)

Lemma relabel_loop_st (h : heap) (masks : loc) (m dst : ndarray)
  (pairs : list (Z * Z)) :
  h !! masks = Some m ->
  for_each_
    (fun '(new_id, original_id) =>
       do* m := load masks in
       do* dst := load (length h) in
       store (length h) (assign_where dst (eq_mask m original_id) new_id))
    pairs (h ++ [dst]) =
  (Ok tt,
   h ++ [fold_left
           (fun dst '(new_id, original_id) =>
              assign_where dst (eq_mask m original_id) new_id)
           pairs dst]).
Proof.
  intros Hm. revert dst.
  induction pairs as [| [new_id original_id] pairs IH]; intros dst.
  - reflexivity.
  - cbn [for_each_ fold_left]. unfold mbind at 1.
    unfold mbind at 1, load at 1.
    rewrite (lookup_app_l_Some _ _ _ _ Hm).
    unfold mbind at 1, load at 1.
    rewrite list_lookup_middle by reflexivity.
    unfold store. rewrite insert_app_r_alt, Nat.sub_diag by reflexivity.
    cbn [insert list_insert]. apply IH.
Qed.

Lemma relabel_st_spec (h : heap) (masks : loc) (m : ndarray)
  (pairs : list (Z * Z)) :
  h !! masks = Some m ->
  relabel_st masks pairs h = (Ok (length h), h ++ [relabel m pairs]).
Proof.
  intros Hm. unfold relabel_st.
  unfold mbind at 1, load at 1. rewrite Hm.
  unfold mbind at 1, alloc.
  unfold mbind at 1. rewrite (relabel_loop_st h masks m _ pairs Hm).
  reflexivity.
Qed.

(** C10: running the analysis on references to the caller's frames and
    masks returns what the pure analysis returns and leaves every object
    the caller holds, these two included, as it was; the relabelled mask is
    a new object. *)
Theorem analysis_preserves_inputs (h : heap) (frames masks : loc)
  (f m : ndarray) :
  h !! frames = Some f -> h !! masks = Some m ->
  exists h',
    analyze_calcium_intensity_st frames masks h =
    (analyze_calcium_intensity f m, h') /\
    h' !! frames = Some f /\
    h' !! masks = Some m /\
    (forall l a, h !! l = Some a -> h' !! l = Some a).
Proof.
  intros Hf Hm. unfold analyze_calcium_intensity_st, analyze_calcium_intensity,
    sequential_labels.
  unfold mbind at 1, load at 1. rewrite Hm.
  destruct (bool_decide _).
  - exists h. split; [| now repeat split].
    unfold mbind at 1, ret.
    unfold mbind at 1, load at 1. rewrite Hf.
    unfold mbind at 1, load at 1. rewrite Hm.
    unfold mbind, lift.
    now destruct (extract_records f m _).
  - exists (h ++ [relabel m (enumerate1 (nonzero (np_unique (data m))))]).
    split.
    + unfold mbind at 1. unfold mbind at 1.
      rewrite (relabel_st_spec h masks m _ Hm). unfold ret.
      unfold mbind at 1, load at 1. rewrite (lookup_app_l_Some _ _ _ _ Hf).
      unfold mbind at 1, load at 1. rewrite list_lookup_middle by reflexivity.
      unfold mbind, lift.
      now destruct (extract_records f _ _).
    + split; [now apply lookup_app_l_Some |].
      split; [now apply lookup_app_l_Some |].
      intros l a Hl. now apply lookup_app_l_Some.
Qed.

Lemma analysis_preserves_inputs_witness :
  [scenario_frames; scenario_labels] !! 0%nat = Some scenario_frames /\
  [scenario_frames; scenario_labels] !! 1%nat = Some scenario_labels /\
  exists h',
    analyze_calcium_intensity_st 0%nat 1%nat [scenario_frames; scenario_labels] =
    (analyze_calcium_intensity scenario_frames scenario_labels, h') /\
    h' !! 0%nat = Some scenario_frames /\
    h' !! 1%nat = Some scenario_labels /\
    (forall l a, [scenario_frames; scenario_labels] !! l = Some a ->
                 h' !! l = Some a).
Proof.
  split; [reflexivity |]. split; [reflexivity |].
  apply (analysis_preserves_inputs [scenario_frames; scenario_labels]
           0%nat 1%nat scenario_frames scenario_labels); reflexivity.
Defined.

(** * The analysis as a whole *)

(** On a tensor with at least one frame and a label image with at least
    one cell the analysis returns the extracted rows, each divided by its
    cell's baseline, and that baseline is the cell's frame-0 mean: the
    fallback of lines 855-856 is never taken. *)
Lemma analysis_rows (rgb : bool) (frames masks : ndarray) (N H W : nat) :
  shape frames = frame_shape rgb (S N) H W -> shape masks = [H; W] ->
  wf frames -> wf masks ->
  nonzero (np_unique (data masks)) <> [] ->
  let m := fst (sequential_labels masks) in
  let cells := snd (sequential_labels masks) in
  let rs := flat_map
              (fun f => map (fun c => mk_record f c (mean_reading rgb frames m f c))
                            cells)
              (seq 0 (S N)) in
  analyze_calcium_intensity frames masks = Ok (map (normalized rs) rs) /\
  forall c, In c cells -> baseline_of rs c = mean_reading rgb frames m 0 c.
Proof.
  intros Hf Hm Hwf Hwm Hne m cells rs.
  destruct (sequential_labels_spec masks) as (Hc & Hs & Hsh & Hlen).
  assert (Hex : extract_records frames m cells = Ok rs).
  { apply (extract_records_spec rgb _ _ _ (S N) H W); try assumption.
    - subst m. now rewrite Hsh.
    - subst m. unfold wf in *. now rewrite Hsh, Hlen. }
  assert (Hin : forall r, In r rs <->
            exists f c, (f < S N)%nat /\ In c cells /\
              r = mk_record f c (mean_reading rgb frames m f c)).
  { intros r. subst rs. rewrite in_flat_map. split.
    - intros (f & Hf' & Hr). apply in_map_iff in Hr.
      destruct Hr as (c & <- & Hc'). apply in_seq in Hf'.
      exists f, c. repeat split; [lia | assumption].
    - intros (f & c & Hf' & Hc' & ->). exists f.
      split; [apply in_seq; lia |]. apply in_map_iff. now exists c. }
  split.
  - unfold analyze_calcium_intensity.
    rewrite (surjective_pairing (sequential_labels masks)).
    fold m cells. rewrite Hex. cbn [bind]. apply add_normalized_ok.
    + destruct cells as [| c cells'] eqn:Ec.
      * exfalso. apply Hne. subst cells. rewrite Hs in Ec.
        apply (f_equal (@length Z)) in Ec. rewrite length_arange1 in Ec.
        now apply length_zero_iff_nil.
      * intros E. assert (In (mk_record 0 c (mean_reading rgb frames m 0 c)) rs)
          as Hr by (apply Hin; exists 0%nat, c; repeat split; [lia | now left]).
        rewrite E in Hr. destruct Hr.
    + intros r Hr. apply Hin in Hr. now destruct Hr as (f & c & _ & Hc' & ->).
  - intros c Hc'. unfold baseline_of.
    destruct (first_frame_data rs c) as [| r rest] eqn:E.
    + exfalso.
      assert (In (mk_record 0 c (mean_reading rgb frames m 0 c))
                 (first_frame_data rs c)) as Hr.
      { apply filter_In. split.
        - apply Hin. exists 0%nat, c. repeat split; [lia | assumption].
        - cbn [cell_id frame]. now rewrite Z.eqb_refl. }
      rewrite E in Hr. destruct Hr.
    + assert (In r (first_frame_data rs c)) as Hr by (rewrite E; now left).
      apply filter_In in Hr. destruct Hr as [Hr Hcond].
      apply Hin in Hr. destruct Hr as (f & c' & _ & _ & ->).
      cbn [cell_id frame intensity] in *.
      apply andb_true_iff in Hcond. destruct Hcond as [Hc'' Hf''].
      apply Z.eqb_eq in Hc''. apply Nat.eqb_eq in Hf''. now subst.
Qed.

(** * Relabelling keeps the cells *)

Lemma new_label_cases (d : list Z) (v : Z) :
  let u := nonzero (np_unique d) in
  (In v d /\ v <> 0 ->
   exists i, nth_error u i = Some v /\
             relabel_value (enumerate1 u) v 0 = Z.of_nat (S i)) /\
  (~ (In v d /\ v <> 0) -> relabel_value (enumerate1 u) v 0 = 0).
Proof.
  intros u. destruct (relabel_value_enumerate d v) as [Habs Hat]. fold u in Habs, Hat.
  split.
  - intros Hv. apply in_unique_cells in Hv. fold u in Hv.
    apply In_nth_error in Hv. destruct Hv as [i Hi].
    exists i. split; [exact Hi | now apply Hat].
  - intros Hv. apply Habs. intros Hin. apply Hv. now apply in_unique_cells.
Qed.

Lemma ascending_nth_lt (u : list Z) (i j : nat) (v w : Z) :
  StronglySorted Z.lt u ->
  nth_error u i = Some v -> nth_error u j = Some w -> (i < j)%nat -> v < w.
Proof.
  intros Hs. revert i j. induction Hs as [| a u Hs IH Ha]; intros i j Hi Hj Hlt.
  - now destruct i.
  - destruct j as [| j]; [lia |]. cbn [nth_error] in Hj.
    destruct i as [| i].
    + injection Hi as <-. rewrite List.Forall_forall in Ha.
      apply Ha. now apply nth_error_In in Hj.
    + cbn [nth_error] in Hi. apply (IH i j); [assumption .. | lia].
Qed.

Lemma ascending_nth_iff (u : list Z) (i j : nat) (v w : Z) :
  StronglySorted Z.lt u ->
  nth_error u i = Some v -> nth_error u j = Some w ->
  (v < w <-> (i < j)%nat) /\ (v = w <-> i = j).
Proof.
  intros Hs Hi Hj.
  destruct (Nat.lt_trichotomy i j) as [Hlt | [-> | Hgt]].
  - pose proof (ascending_nth_lt u i j v w Hs Hi Hj Hlt). lia.
  - assert (v = w) by congruence. lia.
  - pose proof (ascending_nth_lt u j i w v Hs Hj Hi Hgt). lia.
Qed.

(** Both relabelling sites produce the same image. *)
Lemma sequential_labels_relabel (m : ndarray) :
  fst (sequential_labels m) = relabel m (enumerate1 (nonzero (np_unique (data m)))).
Proof.
  unfold sequential_labels.
  destruct (bool_decide_reflect
              (nonzero (np_unique (data m)) =
               arange1 (length (nonzero (np_unique (data m)))))) as [Hu | Hu];
    cbn [fst]; [| reflexivity].
  assert (Hc : canonical m (length (nonzero (np_unique (data m))))).
  { intros v. rewrite <- in_arange1, <- Hu. symmetry. apply in_unique_cells. }
  rewrite Hu at 1. symmetry. now apply relabel_canonical_id.
Qed.

Lemma map_fst_enumerate1 {A} (l : list A) :
  map fst (enumerate1 l) = arange1 (length l).
Proof.
  unfold enumerate1.
  assert (H : forall (a : list Z) (b : list A),
             length a = length b -> map fst (combine a b) = a).
  { induction a as [| x a IH]; intros [| y b] Hl; cbn in *; try congruence.
    f_equal. apply IH. lia. }
  apply H. apply length_arange1.
Qed.

Lemma map_snd_enumerate1 {A} (l : list A) : map snd (enumerate1 l) = l.
Proof.
  unfold enumerate1.
  assert (H : forall (b : list A) (a : list Z),
             length a = length b -> map snd (combine a b) = b).
  { induction b as [| y b IH]; intros [| x a] Hl; cbn in *; try congruence.
    f_equal. apply IH. lia. }
  apply H. apply length_arange1.
Qed.

(** X1: relabelling, at either site, keeps the shape and the partition:
    background stays background, and two pixels carry the same label after
    relabelling exactly when they did before. *)
Theorem relabel_preserves_partition (mask out : ndarray) (p q : nat) :
  out = fst (process_mask_relabel mask) \/ out = fst (sequential_labels mask) ->
  (p < length (data mask))%nat -> (q < length (data mask))%nat ->
  shape out = shape mask /\
  length (data out) = length (data mask) /\
  (nth p (data out) 0 = 0 <-> nth p (data mask) 0 = 0) /\
  (nth p (data out) 0 = nth q (data out) 0 <->
   nth p (data mask) 0 = nth q (data mask) 0).
Proof.
  intros Hout Hp Hq.
  assert (Hrel : out = relabel mask (enumerate1 (nonzero (np_unique (data mask))))).
  { destruct Hout as [-> | ->].
    - now rewrite process_mask_relabel_spec.
    - apply sequential_labels_relabel. }
  rewrite Hrel, relabel_pointwise. cbn [shape data].
  split; [reflexivity |]. split; [apply length_map |].
  set (new := fun v => relabel_value _ v 0).
  assert (Hnth : forall r, nth r (map new (data mask)) 0 = new (nth r (data mask) 0)).
  { intros r. rewrite <- (map_nth new). f_equal.
    subst new. cbn beta. symmetry.
    apply (proj2 (new_label_cases (data mask) 0)). intros [_ H]. congruence. }
  rewrite !Hnth.
  assert (Hin : forall r, (r < length (data mask))%nat ->
                          In (nth r (data mask) 0) (data mask))
    by (intros r Hr; now apply nth_In).
  pose proof (ascending_unique_cells (data mask)) as Hs.
  set (a := nth p (data mask) 0) in *. set (b := nth q (data mask) 0) in *.
  specialize (Hin p Hp) as Ha. specialize (Hin q Hq) as Hb. fold a in Ha. fold b in Hb.
  destruct (new_label_cases (data mask) a) as [Ha1 Ha0].
  destruct (new_label_cases (data mask) b) as [Hb1 Hb0].
  change (relabel_value (enumerate1 (nonzero (np_unique (data mask)))) a 0)
    with (new a) in Ha1, Ha0.
  change (relabel_value (enumerate1 (nonzero (np_unique (data mask)))) b 0)
    with (new b) in Hb1, Hb0.
  destruct (Z.eq_dec a 0) as [Ea | Ea], (Z.eq_dec b 0) as [Eb | Eb].
  - rewrite Ha0, Hb0 by tauto. lia.
  - rewrite Ha0 by tauto. destruct Hb1 as (j & _ & ->); [tauto |]. lia.
  - rewrite Hb0 by tauto. destruct Ha1 as (i & _ & ->); [tauto |]. lia.
  - destruct Ha1 as (i & Hi & ->); [tauto |].
    destruct Hb1 as (j & Hj & ->); [tauto |].
    destruct (ascending_nth_iff _ i j a b Hs Hi Hj) as [_ Heq]. lia.
Qed.

Lemma relabel_preserves_partition_witness :
  (mk_ndarray [2; 2]%nat [2; 0; 1; 2] =
     fst (process_mask_relabel (mk_ndarray [2; 2]%nat [9; 0; 4; 9])) \/
   mk_ndarray [2; 2]%nat [2; 0; 1; 2] =
     fst (sequential_labels (mk_ndarray [2; 2]%nat [9; 0; 4; 9]))) /\
  (0 < length [9; 0; 4; 9])%nat /\ (3 < length [9; 0; 4; 9])%nat /\
  (nth 0 [2; 0; 1; 2] 0 = nth 3 [2; 0; 1; 2] 0 <->
   nth 0 [9; 0; 4; 9] 0 = nth 3 [9; 0; 4; 9] 0).
Proof.
  split; [left; reflexivity |]. split; [cbn; lia |]. split; [cbn; lia |].
  exact (proj2 (proj2 (proj2
    (relabel_preserves_partition (mk_ndarray [2; 2]%nat [9; 0; 4; 9])
       (mk_ndarray [2; 2]%nat [2; 0; 1; 2]) 0 3
       (or_introl eq_refl) ltac:(cbn; lia) ltac:(cbn; lia))))).
Defined.

Lemma in_enumerate_from (a : nat) (u : list Z) (s o : Z) :
  In (s, o) (combine (map Z.of_nat (seq a (length u))) u) <->
  exists i, nth_error u i = Some o /\ s = Z.of_nat (a + i).
Proof.
  revert a. induction u as [| x u IH]; intros a; cbn [length seq map combine In].
  - split; [tauto | now intros ([| i] & Hi & _)].
  - rewrite IH. split.
    + intros [E | (i & Hi & ->)].
      * injection E as <- <-. exists 0%nat. split; [reflexivity | f_equal; lia].
      * exists (S i). split; [exact Hi | f_equal; lia].
    + intros ([| i] & Hi & ->); cbn [nth_error] in Hi.
      * left. injection Hi as <-. do 2 f_equal. lia.
      * right. exists i. split; [exact Hi | f_equal; lia].
Qed.

Lemma dict_get_at (a : nat) (u : list Z) (i : nat) (v : Z) :
  List.NoDup u -> nth_error u i = Some v ->
  dict_get (map (fun '(s, o) => (o, s))
              (combine (map Z.of_nat (seq a (length u))) u)) v =
  Some (Z.of_nat (a + i)).
Proof.
  revert a i. induction u as [| x u IH]; intros a i Hnd Hi.
  - now destruct i.
  - inversion Hnd as [| ? ? Hx Hnd']; subst.
    cbn [length seq map combine dict_get].
    destruct i as [| i]; cbn [nth_error] in Hi.
    + injection Hi as ->. rewrite Z.eqb_refl. do 2 f_equal. lia.
    + destruct (Z.eqb_spec v x) as [-> | _].
      * exfalso. apply Hx. now apply nth_error_In in Hi.
      * rewrite (IH (S a) i) by assumption. do 2 f_equal. lia.
Qed.

(** X2: the ID map of [process_mask] lists the distinct non-zero raw
    labels in ascending order against 1..n, is strictly increasing (hence
    one-to-one), and sends the raw label of every non-background pixel to
    the label that pixel carries in the relabelled mask. *)
Theorem id_map_order_preserving (mask : ndarray) :
  let out := fst (process_mask_relabel mask) in
  let id_map := snd (process_mask_relabel mask) in
  map fst id_map = nonzero (np_unique (data mask)) /\
  map snd id_map = arange1 (length id_map) /\
  (forall o1 s1 o2 s2, In (o1, s1) id_map -> In (o2, s2) id_map ->
     (o1 < o2 <-> s1 < s2) /\ (o1 = o2 <-> s1 = s2)) /\
  (forall p, (p < length (data mask))%nat -> nth p (data mask) 0 <> 0 ->
     dict_get id_map (nth p (data mask) 0) = Some (nth p (data out) 0)).
Proof.
  rewrite process_mask_relabel_spec. cbn [fst snd].
  set (u := nonzero (np_unique (data mask))).
  pose proof (ascending_unique_cells (data mask)) as Hs. fold u in Hs.
  assert (Hswap : forall l : list (Z * Z),
             map fst (map (fun '(s, o) => (o, s)) l) = map snd l /\
             map snd (map (fun '(s, o) => (o, s)) l) = map fst l).
  { intros l. rewrite !map_map. split; apply map_ext; now intros []. }
  split; [| split; [| split]].
  - rewrite (proj1 (Hswap _)). apply map_snd_enumerate1.
  - rewrite (proj2 (Hswap _)), map_fst_enumerate1, length_map.
    unfold enumerate1. rewrite length_combine, length_arange1.
    now rewrite Nat.min_id.
  - intros o1 s1 o2 s2 H1 H2.
    apply in_map_iff in H1. destruct H1 as ([s o] & E1 & H1).
    apply in_map_iff in H2. destruct H2 as ([s' o'] & E2 & H2).
    injection E1 as <- <-. injection E2 as <- <-.
    apply (in_enumerate_from 1) in H1. destruct H1 as (i & Hi & ->).
    apply (in_enumerate_from 1) in H2. destruct H2 as (j & Hj & ->).
    destruct (ascending_nth_iff u i j _ _ Hs Hi Hj). lia.
  - intros p Hp Hnz. rewrite relabel_pointwise. cbn [data].
    assert (Hin : In (nth p (data mask) 0) (data mask)) by now apply nth_In.
    set (v := nth p (data mask) 0) in *.
    rewrite (nth_indep _ 0 (relabel_value (enumerate1 u) 0 0))
      by now rewrite length_map.
    rewrite (map_nth (fun v => relabel_value (enumerate1 u) v 0)). fold v.
    destruct (proj1 (new_label_cases (data mask) v) (conj Hin Hnz))
      as (i & Hi & Hnew).
    fold u in Hi, Hnew. rewrite Hnew. unfold enumerate1, arange1.
    rewrite (dict_get_at 1 u i v); [reflexivity | | exact Hi].
    now apply ascending_NoDup.
Qed.

Lemma id_map_order_preserving_witness :
  (2 < length [9; 0; 4; 9])%nat /\ nth 2 [9; 0; 4; 9] 0 <> 0 /\
  dict_get (snd (process_mask_relabel (mk_ndarray [2; 2]%nat [9; 0; 4; 9])))
           (nth 2 [9; 0; 4; 9] 0) =
  Some (nth 2 (data (fst (process_mask_relabel
                            (mk_ndarray [2; 2]%nat [9; 0; 4; 9])))) 0).
Proof.
  split; [cbn; lia |]. split; [cbn; lia |].
  exact (proj2 (proj2 (proj2
    (id_map_order_preserving (mk_ndarray [2; 2]%nat [9; 0; 4; 9]))))
    2%nat ltac:(cbn; lia) ltac:(cbn; lia)).
Defined.

(** X3: the mask relabelled at upload ([process_mask]) is the mask the
    analysis works on for the same raw label image, and the cell ids
    reported at upload are the cell ids of the analysis. *)
Theorem relabel_sites_agree (m : ndarray) :
  fst (process_mask_relabel m) = fst (sequential_labels m) /\
  map snd (snd (process_mask_relabel m)) = snd (sequential_labels m).
Proof.
  destruct (sequential_labels_spec m) as (_ & Hs & _).
  rewrite Hs, process_mask_relabel_spec, sequential_labels_relabel.
  cbn [fst snd]. split; [reflexivity |].
  rewrite map_map.
  rewrite (map_ext _ fst) by now intros [].
  apply map_fst_enumerate1.
Qed.

(** X4: the analysis of a raw label image is the analysis of its relabelled
    image: relabelling beforehand changes no row of the table. *)
Theorem analysis_of_relabelled (frames masks : ndarray) :
  analyze_calcium_intensity frames (fst (sequential_labels masks)) =
  analyze_calcium_intensity frames masks /\
  analyze_calcium_intensity frames (fst (process_mask_relabel masks)) =
  analyze_calcium_intensity frames masks.
Proof.
  assert (H : analyze_calcium_intensity frames (fst (sequential_labels masks)) =
              analyze_calcium_intensity frames masks).
  { destruct (sequential_labels_spec masks) as (Hc & Hs & _).
    unfold analyze_calcium_intensity at 1.
    rewrite (sequential_labels_canonical _ _ Hc), <- Hs.
    unfold analyze_calcium_intensity.
    now destruct (sequential_labels masks). }
  split; [exact H |].
  rewrite process_mask_relabel_spec. cbn [fst].
  now rewrite <- sequential_labels_relabel.
Qed.

(** * What the analysis returns *)

Lemma sum_Z_bounds (l : list Z) (lo hi : Z) :
  (forall x, In x l -> lo <= x <= hi) ->
  lo * Z.of_nat (length l) <= sum_Z l <= hi * Z.of_nat (length l).
Proof.
  induction l as [| x l IH]; intros H; cbn [sum_Z fold_right length]; [lia |].
  fold (sum_Z l).
  specialize (IH (fun y Hy => H y (or_intror Hy))).
  specialize (H x (or_introl eq_refl)). lia.
Qed.

(** A mean lies between the bounds of what it averages. *)
Lemma arithmetic_mean_bounds (l : list Z) (lo hi : Z) :
  l <> [] -> (forall x, In x l -> lo <= x <= hi) ->
  (inject_Z lo <= Qred (arithmetic_mean l) <= inject_Z hi)%Q.
Proof.
  intros Hne H. pose proof (sum_Z_bounds l lo hi H) as [Hlo Hhi].
  assert (Hn : (0 < inject_Z (Z.of_nat (length l)))%Q).
  { change 0%Q with (inject_Z 0). rewrite <- Zlt_Qlt.
    destruct l; [congruence | cbn [length]; lia]. }
  rewrite Qred_correct. unfold arithmetic_mean. split.
  - apply Qle_shift_div_l; [exact Hn |].
    now rewrite <- inject_Z_mult, <- Zle_Qle.
  - apply Qle_shift_div_r; [exact Hn |].
    now rewrite <- inject_Z_mult, <- Zle_Qle.
Qed.

(** The rows of a successful analysis, read back from its result. *)
Lemma analysis_rows_inv (rgb : bool) (frames masks : ndarray) (N H W : nat)
  (rows : list nrecord) :
  shape frames = frame_shape rgb N H W -> shape masks = [H; W] ->
  wf frames -> wf masks ->
  analyze_calcium_intensity frames masks = Ok rows ->
  let m := fst (sequential_labels masks) in
  let cells := snd (sequential_labels masks) in
  let rs := analysis_order (mean_reading rgb frames m) N cells in
  rows = map (normalized rs) rs /\
  length (data m) = (H * W)%nat /\
  (forall c, In c cells -> In c (data m)).
Proof.
  intros Hf Hm Hwf Hwm Hok m cells rs.
  destruct (sequential_labels_spec masks) as (Hc & Hs & Hsh & Hlen).
  assert (Hex : extract_records frames m cells = Ok rs).
  { apply (extract_records_spec rgb _ _ _ N H W); try assumption.
    - subst m. now rewrite Hsh.
    - subst m. unfold wf in *. now rewrite Hsh, Hlen. }
  unfold analyze_calcium_intensity in Hok.
  rewrite (surjective_pairing (sequential_labels masks)) in Hok.
  fold m cells in Hok. rewrite Hex in Hok. cbn [bind] in Hok.
  apply add_normalized_inv in Hok. destruct Hok as (_ & _ & ->).
  split; [reflexivity |]. split.
  - subst m. rewrite Hlen. unfold wf in Hwm. rewrite Hwm, Hm.
    cbn [size fold_right]. lia.
  - intros c Hc'. subst cells. rewrite Hs in Hc'. apply in_arange1 in Hc'.
    now apply Hc.
Qed.

Lemma reading_in_data (rgb : bool) (frames : ndarray) (N H W f p : nat) :
  shape frames = frame_shape rgb N H W -> wf frames ->
  (f < N)%nat -> (p < H * W)%nat ->
  In (reading rgb frames (H * W) f p) (data frames).
Proof.
  intros Hf Hwf HfN Hp. unfold wf in Hwf. rewrite Hf in Hwf.
  unfold reading. destruct rgb; cbn [frame_shape size fold_right] in Hwf;
    apply nth_In; nia.
Qed.

(** X5: every intensity of the table is a number within the range of the
    values of the frame tensor: if all of them lie in [lo, hi], so does
    every mean (0..255 for 8-bit frames). *)
Theorem intensities_within_range (rgb : bool) (frames masks : ndarray)
  (N H W : nat) (lo hi : Z) (rows : list nrecord) :
  shape frames = frame_shape rgb N H W -> shape masks = [H; W] ->
  wf frames -> wf masks ->
  (forall x, In x (data frames) -> lo <= x <= hi) ->
  analyze_calcium_intensity frames masks = Ok rows ->
  forall nr, In nr rows ->
    exists q, intensity (row nr) = Fin q /\
              (inject_Z lo <= q <= inject_Z hi)%Q.
Proof.
  intros Hf Hm Hwf Hwm Hrange Hok nr Hnr.
  destruct (analysis_rows_inv rgb frames masks N H W rows Hf Hm Hwf Hwm Hok)
    as (-> & Hlen & Hin).
  apply in_map_iff in Hnr. destruct Hnr as (r & <- & Hr).
  cbn [normalized row]. unfold analysis_order in Hr.
  apply in_flat_map in Hr. destruct Hr as (f & Hf' & Hr).
  apply in_map_iff in Hr. destruct Hr as (c & <- & Hc). apply in_seq in Hf'.
  cbn [intensity]. rewrite mean_reading_arithmetic by now apply Hin.
  eexists. split; [reflexivity |].
  apply arithmetic_mean_bounds.
  - intros E. apply map_eq_nil in E. revert E.
    now apply members_nonempty, Hin.
  - intros x Hx. apply in_map_iff in Hx. destruct Hx as (p & <- & Hp).
    apply Hrange. rewrite Hlen.
    apply (reading_in_data rgb frames N H W); try assumption; [lia |].
    unfold members in Hp. apply filter_In in Hp. destruct Hp as [Hp _].
    apply in_seq in Hp. lia.
Qed.

Lemma intensities_within_range_witness :
  shape dark_frames = frame_shape true 2 1 1 /\
  shape one_cell = [1; 1]%nat /\ wf dark_frames /\ wf one_cell /\
  (forall x, In x (data dark_frames) -> 0 <= x <= 255) /\
  analyze_calcium_intensity dark_frames one_cell =
    Ok [mk_nrecord (mk_record 0 1 (fl_of_Z 0)) NaN;
        mk_nrecord (mk_record 1 1 (fl_of_Z 5)) PInf] /\
  exists q, fl_of_Z 5 = Fin q /\ (inject_Z 0 <= q <= inject_Z 255)%Q.
Proof.
  assert (Hr : forall x, In x (data dark_frames) -> 0 <= x <= 255).
  { cbn. intros x Hx. repeat (destruct Hx as [<- | Hx]; [lia |]). destruct Hx. }
  repeat (split; [first [reflexivity | exact Hr] |]).
  exact (intensities_within_range true dark_frames one_cell 2 1 1 0 255 _
           eq_refl eq_refl eq_refl eq_refl Hr eq_refl
           (mk_nrecord (mk_record 1 1 (fl_of_Z 5)) PInf)
           (or_intror (or_introl eq_refl))).
Defined.

Lemma baseline_first_frame (rs : list record) (r0 : record) :
  In r0 rs -> frame r0 = 0%nat ->
  (forall r, In r rs -> cell_id r = cell_id r0 -> frame r = 0%nat ->
             intensity r = intensity r0) ->
  baseline_of rs (cell_id r0) = intensity r0.
Proof.
  intros Hin Hf Huniq. unfold baseline_of.
  destruct (first_frame_data rs (cell_id r0)) as [| r rest] eqn:E.
  - exfalso. assert (In r0 (first_frame_data rs (cell_id r0))) as H.
    { apply filter_In. split; [assumption |].
      now rewrite Z.eqb_refl, Hf. }
    rewrite E in H. destruct H.
  - assert (In r (first_frame_data rs (cell_id r0))) as H by (rewrite E; now left).
    apply filter_In in H. destruct H as [Hr Hcond].
    apply andb_true_iff in Hcond. destruct Hcond as [Hc Hz].
    apply Z.eqb_eq in Hc. apply Nat.eqb_eq in Hz. now apply Huniq.
Qed.

Lemma fl_div_self (q : Q) : Qzero q = false -> fl_div (Fin q) (Fin q) = Fin 1%Q.
Proof.
  intros Hq. cbn [fl_div]. rewrite Hq. f_equal.
  change 1%Q with (Qred 1%Q). apply Qred_complete.
  apply Qmult_inv_r. now apply Qeq_bool_neq.
Qed.

(** X6: in the table of a successful analysis every row is normalised by
    the intensity of the frame-0 row of its cell (the fallback baseline is
    never used), so a frame-0 row with a non-zero intensity has
    normalized_intensity 1. *)
Theorem normalized_by_first_frame (rgb : bool) (frames masks : ndarray)
  (N H W : nat) (rows : list nrecord) (nr nr0 : nrecord) :
  shape frames = frame_shape rgb N H W -> shape masks = [H; W] ->
  wf frames -> wf masks ->
  analyze_calcium_intensity frames masks = Ok rows ->
  In nr rows -> In nr0 rows ->
  cell_id (row nr0) = cell_id (row nr) -> frame (row nr0) = 0%nat ->
  normalized_intensity nr = fl_div (intensity (row nr)) (intensity (row nr0)) /\
  (forall q, intensity (row nr0) = Fin q -> Qzero q = false ->
             normalized_intensity nr0 = Fin 1%Q).
Proof.
  intros Hf Hm Hwf Hwm Hok Hnr Hnr0 Hcell Hframe.
  destruct (analysis_rows_inv rgb frames masks N H W rows Hf Hm Hwf Hwm Hok)
    as (-> & _ & _).
  set (rs := analysis_order _ N _) in *.
  apply in_map_iff in Hnr. destruct Hnr as (r & <- & Hr).
  apply in_map_iff in Hnr0. destruct Hnr0 as (r0 & <- & Hr0).
  cbn [normalized row normalized_intensity] in *.
  assert (Hb : baseline_of rs (cell_id r0) = intensity r0).
  { apply baseline_first_frame; [assumption .. |].
    intros r' Hr' Hc' Hf'. subst rs. unfold analysis_order in Hr', Hr0.
    apply in_flat_map in Hr'. destruct Hr' as (f' & _ & Hr').
    apply in_map_iff in Hr'. destruct Hr' as (c' & <- & _).
    apply in_flat_map in Hr0. destruct Hr0 as (f0 & _ & Hr0).
    apply in_map_iff in Hr0. destruct Hr0 as (c0 & <- & _).
    cbn [frame cell_id intensity] in *. now subst. }
  split.
  - now rewrite <- Hcell, Hb.
  - intros q Hq Hz. rewrite Hb, Hq. now apply fl_div_self.
Qed.

Lemma normalized_by_first_frame_witness :
  shape scenario_frames = frame_shape true 3 4 4 /\
  shape scenario_labels = [4; 4]%nat /\
  wf scenario_frames /\ wf scenario_labels /\
  (exists rows, analyze_calcium_intensity scenario_frames scenario_labels = Ok rows /\
     In (mk_nrecord (mk_record 2 2 hundred) one) rows /\
     In (mk_nrecord (mk_record 0 2 hundred) one) rows) /\
  one = fl_div hundred hundred.
Proof.
  repeat (split; [reflexivity |]).
  assert (Hok : analyze_calcium_intensity scenario_frames scenario_labels =
                Ok (map (fun '(f, c) => mk_nrecord (mk_record f c hundred) one)
                      [(0%nat,1); (0%nat,2); (1%nat,1); (1%nat,2);
                       (2%nat,1); (2%nat,2)]))
    by (vm_compute; reflexivity).
  split.
  - eexists. split; [exact Hok |]. cbn. tauto.
  - exact (proj1 (normalized_by_first_frame true scenario_frames scenario_labels
             3 4 4 _ (mk_nrecord (mk_record 2 2 hundred) one)
             (mk_nrecord (mk_record 0 2 hundred) one)
             eq_refl eq_refl eq_refl eq_refl Hok
             ltac:(cbn; tauto) ltac:(cbn; tauto) eq_refl eq_refl)).
Defined.

Lemma first_frame_channel (rgb : bool) (N H W : nat) (d : list Z) :
  exists fr, select_channel (mk_ndarray (tl (frame_shape rgb N H W)) d) = Ok fr /\
             shape fr = [H; W].
Proof.
  destruct rgb; cbn [frame_shape tl]; unfold select_channel, index_last;
    cbn [shape length Nat.eqb last_axis List.last Nat.ltb Nat.leb];
    eexists; split; reflexivity.
Qed.

(** X7: a label image with at least one cell whose height and width are
    not those of the frames makes the analysis fail with numpy's
    [IndexError] (the boolean index does not match), at the first frame
    and cell; no row is produced from misaligned data. *)
Theorem mismatched_mask_raises (rgb : bool) (frames masks : ndarray)
  (N H W h w : nat) :
  shape frames = frame_shape rgb (S N) H W -> shape masks = [h; w] ->
  [h; w] <> [H; W] -> nonzero (np_unique (data masks)) <> [] ->
  analyze_calcium_intensity frames masks = Raise IndexError.
Proof.
  intros Hf Hm Hne Hcells.
  destruct (sequential_labels_spec masks) as (_ & Hs & Hsh & _).
  unfold analyze_calcium_intensity.
  rewrite (surjective_pairing (sequential_labels masks)), Hs.
  set (m := fst (sequential_labels masks)) in *.
  destruct (nonzero (np_unique (data masks))) as [| c0 u]; [congruence |].
  cbn [length arange1 seq map].
  unfold extract_records, iter_axis0.
  assert (Hshape : shape frames = S N :: tl (frame_shape rgb (S N) H W))
    by (rewrite Hf; now destruct rgb).
  rewrite Hshape. cbn [bind chunks map length seq combine for_each].
  unfold frame_records at 1. cbn [fst snd].
  destruct (first_frame_channel rgb (S N) H W
              (firstn (size (tl (frame_shape rgb (S N) H W))) (data frames)))
    as (fr & -> & Hfr).
  cbn [bind for_each]. unfold cell_intensity at 1, bool_index.
  rewrite Hfr, Hsh, Hm. cbn [length firstn].
  rewrite bool_decide_eq_false_2 by congruence. reflexivity.
Qed.

Lemma mismatched_mask_raises_witness :
  shape dark_frames = frame_shape true 2 1 1 /\
  shape (mk_ndarray [1; 2]%nat [1; 0]) = [1; 2]%nat /\
  [1; 2]%nat <> [1; 1]%nat /\
  nonzero (np_unique (data (mk_ndarray [1; 2]%nat [1; 0]))) <> [] /\
  analyze_calcium_intensity dark_frames (mk_ndarray [1; 2]%nat [1; 0]) =
  Raise IndexError.
Proof.
  split; [reflexivity |]. split; [reflexivity |].
  split; [discriminate |]. split; [discriminate |].
  apply (mismatched_mask_raises true dark_frames (mk_ndarray [1; 2]%nat [1; 0])
           1 1 1 1 2); [reflexivity | reflexivity | discriminate | discriminate].
Defined.

(** X8: on a tensor without frames and a label image with at least one
    cell the analysis fails with a [KeyError]: the empty result table has
    no [cell_id] column for the baseline loop to read. *)
Theorem no_frames_raises (rgb : bool) (frames masks : ndarray) (H W : nat) :
  shape frames = frame_shape rgb 0 H W ->
  nonzero (np_unique (data masks)) <> [] ->
  analyze_calcium_intensity frames masks = Raise KeyError.
Proof.
  intros Hf Hcells.
  destruct (sequential_labels_spec masks) as (_ & Hs & _).
  unfold analyze_calcium_intensity.
  rewrite (surjective_pairing (sequential_labels masks)), Hs.
  destruct (nonzero (np_unique (data masks))) as [| c0 u]; [congruence |].
  unfold extract_records, iter_axis0.
  assert (Hshape : shape frames = 0%nat :: tl (frame_shape rgb 0 H W))
    by (rewrite Hf; now destruct rgb).
  rewrite Hshape. reflexivity.
Qed.

Lemma no_frames_raises_witness :
  shape (mk_ndarray [0; 1; 1; 3]%nat []) = frame_shape true 0 1 1 /\
  nonzero (np_unique (data one_cell)) <> [] /\
  analyze_calcium_intensity (mk_ndarray [0; 1; 1; 3]%nat []) one_cell =
  Raise KeyError.
Proof.
  split; [reflexivity |]. split; [discriminate |].
  apply (no_frames_raises true _ one_cell 1 1); [reflexivity | discriminate].
Defined.

(** * The analysis endpoint *)

Lemma normalize_frames_supported (a : ndarray) (N H W C : nat) :
  supported (shape a) N H W C -> wf a ->
  exists out, normalize_frames a = Ok out /\
              shape out = [N; H; W; 3%nat] /\ wf out.
Proof.
  destruct a as [sh d]. unfold wf. cbn [shape data]. intros Hs Hwf.
  inversion Hs as [H' W' | H' W' C' HC | N' H' W' HW | N' H' W' C' HC]; subst;
    unfold normalize_frames; cbn [shape length Nat.eqb last_axis List.last];
    rewrite ?HC, ?HW;
    try (destruct (in_134_cases _ HC) as [-> | [-> | ->]]);
    cbn [newaxis_front newaxis_back shape data last_axis List.last app Nat.eqb];
    eexists; (split; [reflexivity |]);
    unfold repeat_last, slice_last, outer;
    cbn [newaxis_front newaxis_back shape data removelast last_axis List.last
         app Nat.min size fold_right] in *;
    (split; [reflexivity |]);
    rewrite ?length_triplicate; try lia;
    rewrite length_drop_alpha; lia.
Qed.

Lemma analyze_video_reduce_2d (mask : ndarray) (H W : nat) :
  shape mask = [H; W] -> analyze_video_reduce mask = Ok mask.
Proof. intros Hm. unfold analyze_video_reduce. now rewrite Hm. Qed.

(** X9: for a TIFF of a supported shape with at least one frame and a 2-D
    label file of the frames' height and width with at least one non-zero
    label, the analysis endpoint answers with the number K of distinct
    non-zero labels and a table of N x K rows: frames 0..N-1 in order, and
    within each frame the cells 1..K in order. *)
Theorem analyze_video_table (a mask : ndarray) (N H W C : nat) :
  supported (shape a) (S N) H W C -> wf a ->
  shape mask = [H; W] -> wf mask ->
  nonzero (np_unique (data mask)) <> [] ->
  let K := length (nonzero (np_unique (data mask))) in
  exists rows,
    analyze_video_uploaded (Tiff a) mask = Ok (K, rows) /\
    length rows = (S N * K)%nat /\
    map (fun nr => (frame (row nr), cell_id (row nr))) rows =
    flat_map (fun f => map (fun c => (f, c)) (arange1 K)) (seq 0 (S N)).
Proof.
  intros Hs Hwf Hm Hwm Hcells K.
  destruct (normalize_frames_supported a (S N) H W C Hs Hwf)
    as (frames & Hnf & Hsh & Hwf').
  destruct (analysis_rows true frames mask N H W Hsh Hm Hwf' Hwm Hcells)
    as [Hok _].
  destruct (sequential_labels_spec mask) as (_ & Hsl & _). fold K in Hsl.
  rewrite Hsl in Hok.
  eexists. split; [| split].
  - unfold analyze_video_uploaded, process_video. cbn [bind]. rewrite Hnf.
    cbn [bind]. rewrite (analyze_video_reduce_2d mask H W Hm). cbn [bind].
    unfold check_dimensions. rewrite Hsh, bool_decide_eq_true_2 by assumption.
    cbn [bind]. fold K.
    destruct (Nat.eqb_spec K 0) as [E | _].
    + exfalso. apply Hcells. now apply length_zero_iff_nil.
    + rewrite Hok. reflexivity.
  - now rewrite length_map, length_records, length_arange1.
  - rewrite map_map. cbn [normalized row frame cell_id].
    generalize (seq 0 (S N)). intros fs.
    induction fs as [| f fs IH]; [reflexivity |].
    cbn [flat_map]. rewrite map_app, IH, map_map. reflexivity.
Qed.

Lemma analyze_video_table_witness :
  supported (shape scenario_frames) 3 4 4 3 /\ wf scenario_frames /\
  shape scenario_labels = [4; 4]%nat /\ wf scenario_labels /\
  nonzero (np_unique (data scenario_labels)) <> [] /\
  exists rows,
    analyze_video_uploaded (Tiff scenario_frames) scenario_labels =
      Ok (2%nat, rows) /\
    length rows = 6%nat.
Proof.
  assert (Hs : supported (shape scenario_frames) 3 4 4 3)
    by (apply full; reflexivity).
  assert (Hc : nonzero (np_unique (data scenario_labels)) <> [])
    by (vm_compute; discriminate).
  split; [exact Hs |]. split; [reflexivity |]. split; [reflexivity |].
  split; [reflexivity |]. split; [exact Hc |].
  destruct (analyze_video_table scenario_frames scenario_labels 2 4 4 3
              Hs eq_refl eq_refl eq_refl Hc) as (rows & Hok & Hlen & _).
  exists rows. split; [exact Hok | exact Hlen].
Defined.

(** X10: the endpoint answers with a table only when the reduced mask has
    exactly the frames' height and width and holds at least one non-zero
    label; the table is then the one of the analysis of these frames and
    this mask. *)
Theorem analyze_video_guards (src : source) (mask_file : ndarray)
  (n : nat) (rows : list nrecord) :
  analyze_video_uploaded src mask_file = Ok (n, rows) ->
  exists frames masks N h w rest,
    process_video src = Ok frames /\
    analyze_video_reduce mask_file = Ok masks /\
    shape frames = N :: h :: w :: rest /\
    shape masks = [h; w] /\
    n = length (nonzero (np_unique (data masks))) /\
    (1 <= n)%nat /\
    analyze_calcium_intensity frames masks = Ok rows.
Proof.
  unfold analyze_video_uploaded. intros Hok.
  destruct (process_video src) as [frames | e]; [| discriminate]. cbn [bind] in Hok.
  destruct (analyze_video_reduce mask_file) as [masks | e]; [| discriminate].
  cbn [bind] in Hok. unfold check_dimensions in Hok.
  destruct (shape frames) as [| N [| h [| w rest]]] eqn:Hsh; try discriminate.
  destruct (bool_decide_reflect (shape masks = [h; w])) as [Hm | _];
    [| discriminate].
  cbn [bind] in Hok.
  destruct (Nat.eqb_spec (length (nonzero (np_unique (data masks)))) 0)
    as [_ | Hn]; [discriminate |].
  destruct (analyze_calcium_intensity frames masks) as [df | e] eqn:Ha;
    [| discriminate].
  injection Hok as <- <-.
  exists frames, masks, N, h, w, rest. repeat split; try assumption; lia.
Qed.

Lemma analyze_video_guards_witness :
  (exists rows,
     analyze_video_uploaded (Tiff scenario_frames) scenario_labels =
     Ok (2%nat, rows)) /\
  exists frames masks N h w rest,
    process_video (Tiff scenario_frames) = Ok frames /\
    analyze_video_reduce scenario_labels = Ok masks /\
    shape frames = N :: h :: w :: rest /\
    shape masks = [h; w].
Proof.
  assert (Hok : analyze_video_uploaded (Tiff scenario_frames) scenario_labels =
                Ok (2%nat,
                    map (fun '(f, c) => mk_nrecord (mk_record f c hundred) one)
                      [(0%nat,1); (0%nat,2); (1%nat,1); (1%nat,2);
                       (2%nat,1); (2%nat,2)]))
    by (vm_compute; reflexivity).
  split; [eexists; exact Hok |].
  destruct (analyze_video_guards _ _ _ _ Hok)
    as (frames & masks & N & h & w & rest & H1 & H2 & H3 & H4 & _).
  now exists frames, masks, N, h, w, rest.
Defined.

Lemma analyze_video_reduce_raises (m : ndarray) (e : exn) :
  analyze_video_reduce m = Raise e -> e = IndexError.
Proof.
  assert (Hl : forall i a e, index_last i a = Raise e -> e = IndexError).
  { intros i a e'. unfold index_last. destruct (_ <? _)%nat; congruence. }
  assert (Hf : forall a e, index_first a = Raise e -> e = IndexError).
  { intros a e'. unfold index_first. destruct (shape a) as [| [| n] r]; congruence. }
  unfold analyze_video_reduce.
  destruct (2 <? _)%nat; [| discriminate].
  destruct (last_axis _ =? 3)%nat; [apply Hl |].
  destruct (length _ =? 3)%nat; [apply Hf |].
  destruct (index_first m) as [m' | e'] eqn:E; cbn [bind].
  - apply Hf.
  - intros E'. injection E' as <-. now apply (Hf m).
Qed.

(** X11: for a video from which no frame is read the endpoint fails with
    an [IndexError] whatever the mask file is: the shape (0,) of the empty
    frame array has no height and width to compare the mask with. *)
Theorem analyze_video_no_frames (reads : list (bool * ndarray))
  (mask_file : ndarray) :
  read_frames reads = [] ->
  analyze_video_uploaded (Video reads) mask_file = Raise IndexError.
Proof.
  intros Hr. unfold analyze_video_uploaded, process_video. rewrite Hr.
  cbn [np_array bind normalize_frames shape length Nat.eqb last_axis List.last].
  destruct (analyze_video_reduce mask_file) as [masks | e] eqn:E; cbn [bind].
  - reflexivity.
  - now rewrite (analyze_video_reduce_raises _ _ E).
Qed.

Lemma analyze_video_no_frames_witness :
  read_frames [(false, one_cell)] = [] /\
  analyze_video_uploaded (Video [(false, one_cell)]) one_cell = Raise IndexError.
Proof.
  split; [reflexivity |].
  apply (analyze_video_no_frames [(false, one_cell)] one_cell). reflexivity.
Defined.

(** * Export of the table with dF/F *)

Lemma existsb_eqb_in (x : Z) (l : list Z) :
  existsb (Z.eqb x) l = true <-> In x l.
Proof.
  rewrite existsb_exists. split.
  - intros (y & Hy & E). apply Z.eqb_eq in E. now subst.
  - intros H. exists x. split; [assumption | apply Z.eqb_refl].
Qed.

Lemma in_pd_unique_from (seen l : list Z) (x : Z) :
  In x (pd_unique_from seen l) <-> In x l /\ ~ In x seen.
Proof.
  revert seen. induction l as [| y l IH]; intros seen; cbn [pd_unique_from In].
  - tauto.
  - destruct (existsb (Z.eqb y) seen) eqn:E.
    + apply existsb_eqb_in in E. rewrite IH. split; [tauto |].
      intros [[-> | H] Hn]; tauto.
    + assert (~ In y seen) as Hy
        by (intros H; apply existsb_eqb_in in H; congruence).
      cbn [In]. rewrite IH. cbn [In]. split.
      * intros [-> | [H Hn]]; [tauto |]. split; [tauto |]. intros H'. apply Hn. now right.
      * intros [[-> | H] Hn]; [now left |].
        destruct (Z.eq_dec y x) as [-> | Hne]; [now left |].
        right. split; [assumption |]. intros [E' | H']; tauto.
Qed.

Lemma NoDup_pd_unique_from (seen l : list Z) :
  List.NoDup (pd_unique_from seen l).
Proof.
  revert seen. induction l as [| y l IH]; intros seen; cbn [pd_unique_from].
  - constructor.
  - destruct (existsb (Z.eqb y) seen); [apply IH |].
    constructor; [| apply IH].
    intros H. apply in_pd_unique_from in H. destruct H as [_ H].
    apply H. now left.
Qed.

Lemma in_pd_unique (l : list Z) (x : Z) : In x (pd_unique l) <-> In x l.
Proof. unfold pd_unique. rewrite in_pd_unique_from. cbn [In]. tauto. Qed.

Lemma cell_block_rows (df : list record) (c : Z) :
  map source_row (cell_block df c) = cell_rows df c /\
  map dF (cell_block df c) =
  calculate_df (map intensity (cell_rows df c)) 10 /\
  (forall d, In d (cell_block df c) ->
     cell_id (source_row d) = c /\
     time_seconds d = fl_div (fl_of_nat (frame (source_row d))) (fl_of_Z 30)).
Proof.
  unfold cell_block, calculate_df_default, calculate_df.
  set (b := np_mean _). set (g := fun x => fl_div (fl_sub x b) b).
  assert (Hin : forall r, In r (cell_rows df c) -> cell_id r = c).
  { intros r Hr. apply filter_In in Hr. now apply Z.eqb_eq. }
  revert Hin. generalize (cell_rows df c). intros rows Hin.
  induction rows as [| r rows IH]; cbn [map zip_with].
  - repeat split; destruct H.
  - destruct IH as (IH1 & IH2 & IH3);
      [intros r' Hr'; apply Hin; now right |].
    cbn [source_row dF]. rewrite IH1, IH2. repeat split.
    + destruct H as [<- | H]; [apply Hin; now left | now apply IH3].
    + destruct H as [<- | H]; [reflexivity | now apply IH3].
Qed.

Lemma filter_split_perm {A} (f : A -> bool) (l : list A) :
  Permutation (List.filter f l ++ List.filter (fun x => negb (f x)) l) l.
Proof.
  induction l as [| x l IH]; [reflexivity |]. cbn [List.filter].
  destruct (f x); cbn [negb app].
  - now constructor.
  - rewrite <- Permutation_middle. now constructor.
Qed.

Lemma cell_rows_without (df : list record) (c c' : Z) :
  c' <> c ->
  cell_rows (List.filter (fun r => negb (cell_id r =? c)) df) c' = cell_rows df c'.
Proof.
  intros Hne. unfold cell_rows. induction df as [| r df IH]; [reflexivity |].
  cbn [List.filter]. destruct (Z.eqb_spec (cell_id r) c) as [E | E]; cbn [negb List.filter].
  - rewrite IH. destruct (Z.eqb_spec (cell_id r) c'); [congruence | reflexivity].
  - now rewrite IH.
Qed.

(** Grouping a table by cell keeps every row exactly once. *)
Lemma group_by_cell_perm (cs : list Z) (df : list record) :
  List.NoDup cs -> (forall r, In r df -> In (cell_id r) cs) ->
  Permutation (flat_map (cell_rows df) cs) df.
Proof.
  intros Hnd. revert df. induction Hnd as [| c cs Hc Hnd IH]; intros df Hall.
  - destruct df as [| r df]; [reflexivity |]. destruct (Hall r). now left.
  - cbn [flat_map].
    eapply Permutation_trans;
      [| apply (filter_split_perm (fun r => cell_id r =? c) df)].
    apply Permutation_app_head.
    replace (flat_map (cell_rows df) cs)
      with (flat_map (cell_rows (List.filter (fun r => negb (cell_id r =? c)) df)) cs).
    + apply IH. intros r Hr. apply filter_In in Hr. destruct Hr as [Hr Hn].
      cbv beta in Hn.
      destruct (Hall r Hr) as [E | H]; [| assumption].
      rewrite <- E, Z.eqb_refl in Hn. discriminate.
    + rewrite !flat_map_concat_map. f_equal.
      apply map_ext_in. intros c' Hc'. apply cell_rows_without.
      intros ->. contradiction.
Qed.

Lemma df_list_rows (df : list record) :
  map source_row (concat (df_list df)) =
  flat_map (cell_rows df) (pd_unique (map cell_id df)).
Proof.
  unfold df_list. generalize (pd_unique (map cell_id df)). intros cs.
  induction cs as [| c cs IH]; [reflexivity |].
  cbn [map concat flat_map]. rewrite map_app, IH.
  now rewrite (proj1 (cell_block_rows df c)).
Qed.

Lemma df_list_perm (df : list record) :
  Permutation (map source_row (concat (df_list df))) df.
Proof.
  rewrite df_list_rows. apply group_by_cell_perm.
  - apply NoDup_pd_unique_from.
  - intros r Hr. apply in_pd_unique. now apply in_map.
Qed.

(** X12: an export keeps rows and invents none: the rows written by
    [export_csv] are, up to order, exactly the rows of the results table
    whose cell is selected, and [export_all_csv] / [import_csv] write, up
    to order, exactly the rows they read. *)
Theorem export_keeps_rows :
  (forall selected_cells df out,
     export_csv selected_cells df = Ok out ->
     Permutation (map source_row out)
                 (List.filter (isin selected_cells) df)) /\
  (forall df out,
     export_all_csv df = Ok out -> Permutation (map source_row out) df).
Proof.
  split.
  - intros sel df out H. unfold export_csv in H.
    destruct sel as [| s sel]; [discriminate |]. injection H as <-.
    apply df_list_perm.
  - intros df out H. unfold export_all_csv, pd_concat in H.
    destruct (df_list df) as [| b bs] eqn:E; [discriminate |].
    rewrite <- E in H. injection H as <-. apply df_list_perm.
Qed.

Lemma export_keeps_rows_witness :
  export_csv [2] [mk_record 0 1 (fl_of_Z 2); mk_record 0 2 (fl_of_Z 4)] =
    Ok [mk_drecord (mk_record 0 2 (fl_of_Z 4)) (Fin 0%Q) (Fin 0%Q)] /\
  Permutation [mk_record 0 2 (fl_of_Z 4)]
    (List.filter (isin [2])
       [mk_record 0 1 (fl_of_Z 2); mk_record 0 2 (fl_of_Z 4)]).
Proof.
  assert (Hok : export_csv [2] [mk_record 0 1 (fl_of_Z 2);
                               mk_record 0 2 (fl_of_Z 4)] =
                Ok [mk_drecord (mk_record 0 2 (fl_of_Z 4)) (Fin 0%Q) (Fin 0%Q)])
    by (vm_compute; reflexivity).
  split; [exact Hok |].
  exact (proj1 export_keeps_rows _ _ _ Hok).
Defined.

Lemma filter_blocks (B : Z -> list drecord) (cs : list Z) (c : Z) :
  List.NoDup cs ->
  (forall c' d, In d (B c') -> cell_id (source_row d) = c') ->
  List.filter (fun d => cell_id (source_row d) =? c) (concat (map B cs)) =
  if in_dec Z.eq_dec c cs then B c else [].
Proof.
  intros Hnd HB.
  assert (Hsame : List.filter (fun d => cell_id (source_row d) =? c) (B c) = B c).
  { apply forallb_filter_id. apply forallb_forall.
    intros d Hd. apply Z.eqb_eq. now apply HB. }
  assert (Hother : forall c', c' <> c ->
            List.filter (fun d => cell_id (source_row d) =? c) (B c') = []).
  { intros c' Hne. apply filter_none. intros d Hd.
    apply Z.eqb_neq. now rewrite (HB c' d Hd). }
  induction Hnd as [| c0 cs Hc0 Hnd IH]; [reflexivity |].
  cbn [map concat]. rewrite List.filter_app, IH.
  destruct (Z.eq_dec c0 c) as [-> | Hne].
  - rewrite Hsame.
    destruct (in_dec Z.eq_dec c cs) as [Hin | _]; [contradiction |].
    destruct (in_dec Z.eq_dec c (c :: cs)) as [_ | Hout];
      [apply app_nil_r | exfalso; apply Hout; now left].
  - rewrite (Hother c0 Hne). cbn [app].
    destruct (in_dec Z.eq_dec c cs) as [Hin | Hout];
      destruct (in_dec Z.eq_dec c (c0 :: cs)) as [Hin' | Hout'];
      try reflexivity.
    + exfalso. apply Hout'. now right.
    + destruct Hin' as [E | Hin']; [congruence | contradiction].
Qed.

Lemma cell_rows_selected (selected_cells : list Z) (df : list record) (c : Z) :
  In c selected_cells ->
  cell_rows (List.filter (isin selected_cells) df) c = cell_rows df c.
Proof.
  intros Hc. unfold cell_rows. induction df as [| r df IH]; [reflexivity |].
  cbn [List.filter]. destruct (isin selected_cells r) eqn:E; cbn [List.filter].
  - now rewrite IH.
  - rewrite IH. destruct (Z.eqb_spec (cell_id r) c) as [Ec | _]; [| reflexivity].
    exfalso. unfold isin in E. rewrite Ec in E.
    apply existsb_eqb_in in Hc. congruence.
Qed.

(** X13: in an export the rows of a selected cell are its rows of the
    results table, in table order, and their dF column is [calculate_df]
    of that cell's intensities alone: it does not depend on which other
    cells are selected; time_seconds is frame / 30. *)
Theorem export_cell_series (selected_cells : list Z) (df : list record)
  (out : list drecord) (c : Z) :
  export_csv selected_cells df = Ok out -> In c selected_cells ->
  let block := List.filter (fun d => cell_id (source_row d) =? c) out in
  map source_row block = cell_rows df c /\
  map dF block = calculate_df (map intensity (cell_rows df c)) 10 /\
  (forall d, In d block ->
     time_seconds d = fl_div (fl_of_nat (frame (source_row d))) (fl_of_Z 30)).
Proof.
  intros Hok Hc block. unfold export_csv in Hok.
  destruct selected_cells as [| s sel]; [discriminate |].
  injection Hok as <-. set (sel' := s :: sel) in *.
  set (df' := List.filter (isin sel') df) in *.
  assert (Hblock : block = cell_block df c).
  { subst block. unfold df_list. rewrite filter_blocks.
    - assert (E : cell_block df' c = cell_block df c).
      { unfold cell_block. subst df'. now rewrite cell_rows_selected. }
      destruct (in_dec Z.eq_dec c (pd_unique (map cell_id df'))) as [_ | Hout];
        [exact E |].
      rewrite <- E. unfold cell_block.
      replace (cell_rows df' c) with (@nil record); [reflexivity |].
      symmetry. apply filter_none. intros r Hr. apply Z.eqb_neq. intros Hr'.
      apply Hout, in_pd_unique. rewrite <- Hr'. now apply in_map.
    - apply NoDup_pd_unique_from.
    - intros c' d Hd. now apply (proj2 (proj2 (cell_block_rows df' c'))). }
  rewrite Hblock. destruct (cell_block_rows df c) as (H1 & H2 & H3).
  split; [exact H1 |]. split; [exact H2 |].
  intros d Hd. now apply H3.
Qed.

Lemma export_cell_series_witness :
  export_csv [2; 1]
    [mk_record 0 1 (fl_of_Z 2); mk_record 0 2 (fl_of_Z 4);
     mk_record 1 1 (fl_of_Z 3); mk_record 1 2 (fl_of_Z 8)] =
  Ok [mk_drecord (mk_record 0 1 (fl_of_Z 2)) (Fin (-1 # 5)%Q) (Fin 0%Q);
      mk_drecord (mk_record 1 1 (fl_of_Z 3)) (Fin (1 # 5)%Q) (Fin (1 # 30)%Q);
      mk_drecord (mk_record 0 2 (fl_of_Z 4)) (Fin (-1 # 3)%Q) (Fin 0%Q);
      mk_drecord (mk_record 1 2 (fl_of_Z 8)) (Fin (1 # 3)%Q) (Fin (1 # 30)%Q)] /\
  In 2 [2; 1] /\
  [Fin (-1 # 3)%Q; Fin (1 # 3)%Q] = calculate_df [fl_of_Z 4; fl_of_Z 8] 10.
Proof.
  assert (Hok : export_csv [2; 1]
    [mk_record 0 1 (fl_of_Z 2); mk_record 0 2 (fl_of_Z 4);
     mk_record 1 1 (fl_of_Z 3); mk_record 1 2 (fl_of_Z 8)] =
  Ok [mk_drecord (mk_record 0 1 (fl_of_Z 2)) (Fin (-1 # 5)%Q) (Fin 0%Q);
      mk_drecord (mk_record 1 1 (fl_of_Z 3)) (Fin (1 # 5)%Q) (Fin (1 # 30)%Q);
      mk_drecord (mk_record 0 2 (fl_of_Z 4)) (Fin (-1 # 3)%Q) (Fin 0%Q);
      mk_drecord (mk_record 1 2 (fl_of_Z 8)) (Fin (1 # 3)%Q) (Fin (1 # 30)%Q)])
    by (vm_compute; reflexivity).
  split; [exact Hok |]. split; [now left |].
  exact (proj1 (proj2 (export_cell_series _ _ _ 2 Hok (or_introl eq_refl)))).
Defined.

Lemma pd_unique_from_seen (seen l : list Z) :
  (forall x, In x l -> In x seen) -> pd_unique_from seen l = [].
Proof.
  induction l as [| y l IH]; intros H; [reflexivity |]. cbn [pd_unique_from].
  rewrite (proj2 (existsb_eqb_in y seen)) by (apply H; now left).
  apply IH. intros x Hx. apply H. now right.
Qed.

Lemma pd_unique_from_app (seen l1 l2 : list Z) :
  List.NoDup l1 -> (forall x, In x l1 -> ~ In x seen) ->
  pd_unique_from seen (l1 ++ l2) = l1 ++ pd_unique_from (rev l1 ++ seen) l2.
Proof.
  intros Hnd. revert seen. induction Hnd as [| y l1 Hy Hnd IH]; intros seen Hs.
  - reflexivity.
  - cbn [app pd_unique_from rev].
    destruct (existsb (Z.eqb y) seen) eqn:E.
    + apply existsb_eqb_in in E. destruct (Hs y); [now left | assumption].
    + rewrite IH, <- app_assoc; [reflexivity |].
      intros x Hx [<- | Hin]; [contradiction |].
      apply (Hs x); [now right | assumption].
Qed.

Lemma cell_rows_analysis_order (g : nat -> Z -> float) (N : nat)
  (cells : list Z) (c : Z) :
  List.NoDup cells -> In c cells ->
  cell_rows (analysis_order g N cells) c =
  map (fun f => mk_record f c (g f c)) (seq 0 N).
Proof.
  intros Hnd Hc. unfold cell_rows, analysis_order.
  assert (Hone : forall f,
            List.filter (fun r => cell_id r =? c)
              (map (fun c' => mk_record f c' (g f c')) cells) =
            [mk_record f c (g f c)]).
  { intros f. clear N. induction Hnd as [| c0 cells Hc0 Hnd IH];
      [destruct Hc |].
    cbn [map List.filter cell_id].
    destruct (Z.eqb_spec c0 c) as [-> | Hne].
    - f_equal. apply filter_none. intros r Hr. apply in_map_iff in Hr.
      destruct Hr as (c' & <- & Hc'). cbn [cell_id]. apply Z.eqb_neq.
      intros ->. contradiction.
    - apply IH. destruct Hc as [E | Hc]; [congruence | assumption]. }
  generalize (seq 0 N). intros fs. induction fs as [| f fs IH]; [reflexivity |].
  cbn [flat_map map]. now rewrite List.filter_app, Hone, IH.
Qed.

(** X14: exporting the table of an analysis (frames ascending, cells in a
    fixed order within each frame) regroups it cell by cell: the cells in
    the same order, and the frames ascending within each cell. *)
Theorem export_sorted_by_cell (g : nat -> Z -> float) (N : nat)
  (cells : list Z) :
  List.NoDup cells -> cells <> [] ->
  exists out,
    export_all_csv (analysis_order g (S N) cells) = Ok out /\
    map source_row out =
    flat_map (fun c => map (fun f => mk_record f c (g f c)) (seq 0 (S N))) cells.
Proof.
  intros Hnd Hne. set (df := analysis_order g (S N) cells).
  assert (Hu : pd_unique (map cell_id df) = cells).
  { subst df. unfold analysis_order, pd_unique. cbn [seq flat_map].
    rewrite map_app, map_map. cbn [cell_id]. rewrite map_id.
    rewrite pd_unique_from_app by (auto; intros x _ []).
    rewrite pd_unique_from_seen; [apply app_nil_r |].
    intros x Hx. apply in_map_iff in Hx. destruct Hx as (r & <- & Hr).
    apply in_flat_map in Hr. destruct Hr as (f & _ & Hr).
    apply in_map_iff in Hr. destruct Hr as (c & <- & Hc). cbn [cell_id].
    apply in_or_app. left. now apply in_rev in Hc. }
  exists (concat (df_list df)). split.
  - unfold export_all_csv, pd_concat, df_list. rewrite Hu.
    destruct cells; [congruence | reflexivity].
  - rewrite df_list_rows, Hu, !flat_map_concat_map. f_equal.
    apply map_ext_in. intros c Hc. now apply cell_rows_analysis_order.
Qed.

Lemma export_sorted_by_cell_witness :
  List.NoDup [1; 2] /\ [1; 2] <> [] /\
  exists out,
    export_all_csv (analysis_order (fun _ _ => hundred) 2 [1; 2]) = Ok out /\
    map source_row out =
    [mk_record 0 1 hundred; mk_record 1 1 hundred;
     mk_record 0 2 hundred; mk_record 1 2 hundred].
Proof.
  assert (Hnd : List.NoDup [1; 2]).
  { constructor; [cbn; intros [H | []]; lia |].
    constructor; [intros [] | constructor]. }
  split; [exact Hnd |]. split; [discriminate |].
  exact (export_sorted_by_cell (fun _ _ => hundred) 1 [1; 2] Hnd
           ltac:(discriminate)).
Defined.

(** X15: [export_all_csv] and [import_csv] fail, with the [ValueError] of
    [pd.concat], exactly on a table without rows, while [export_csv]
    answers a selection that matches no row with an empty table. *)
Theorem export_of_nothing :
  (forall df, export_all_csv df = Raise ValueError <-> df = []) /\
  (forall selected_cells df,
     selected_cells <> [] ->
     (forall r, In r df -> ~ In (cell_id r) selected_cells) ->
     export_csv selected_cells df = Ok []).
Proof.
  split.
  - intros df. unfold export_all_csv, pd_concat, df_list, pd_unique.
    destruct df as [| r df]; [split; reflexivity |].
    cbn [map pd_unique_from existsb]. split; discriminate.
  - intros sel df Hne Hnone. unfold export_csv.
    destruct sel as [| s sel]; [congruence |].
    rewrite filter_none; [reflexivity |].
    intros r Hr. unfold isin.
    destruct (existsb _ _) eqn:E; [| reflexivity].
    apply existsb_eqb_in in E. now destruct (Hnone r Hr).
Qed.

Lemma export_of_nothing_witness :
  [7] <> [] /\
  (forall r, In r [mk_record 0 1 hundred] -> ~ In (cell_id r) [7]) /\
  export_csv [7] [mk_record 0 1 hundred] = Ok [].
Proof.
  assert (H : forall r, In r [mk_record 0 1 hundred] -> ~ In (cell_id r) [7]).
  { intros r [<- | []] [E | []]. discriminate E. }
  split; [discriminate |]. split; [exact H |].
  exact (proj2 export_of_nothing [7] [mk_record 0 1 hundred]
           ltac:(discriminate) H).
Defined.

(** * Reading a video *)

Lemma read_frames_until (fs : list ndarray) (tail : list (bool * ndarray)) :
  tail = [] \/ (exists g rest, tail = (false, g) :: rest) ->
  read_frames (map (pair true) fs ++ tail) = fs.
Proof.
  intros Ht. induction fs as [| f fs IH]; cbn [map app read_frames].
  - destruct Ht as [-> | (g & rest & ->)]; reflexivity.
  - now rewrite IH.
Qed.

(** X16: the frames decoded from a video before the first failed read,
    all of height H, width W and 3 channels, come back stacked in reading
    order with their values unchanged, as a tensor of shape (n, H, W, 3);
    whatever could be read after the failed read is ignored. *)
Theorem video_frames_stacked (fs : list ndarray) (tail : list (bool * ndarray))
  (H W : nat) :
  fs <> [] -> (forall f, In f fs -> shape f = [H; W; 3%nat]) ->
  tail = [] \/ (exists g rest, tail = (false, g) :: rest) ->
  process_video (Video (map (pair true) fs ++ tail)) =
  Ok (mk_ndarray [length fs; H; W; 3%nat] (flat_map data fs)).
Proof.
  intros Hne Hsh Ht. unfold process_video. rewrite (read_frames_until fs tail Ht).
  destruct fs as [| f fs]; [congruence |]. unfold np_array.
  rewrite (proj2 (forallb_forall _ _)).
  2:{ intros g Hg. apply bool_decide_eq_true_2.
      rewrite (Hsh f) by now left. apply Hsh. now right. }
  cbn [bind]. rewrite (Hsh f) by now left. reflexivity.
Qed.

Lemma video_frames_stacked_witness :
  [mk_ndarray [1; 1; 3]%nat [1; 2; 3]; mk_ndarray [1; 1; 3]%nat [4; 5; 6]] <> [] /\
  (forall f, In f [mk_ndarray [1; 1; 3]%nat [1; 2; 3];
                   mk_ndarray [1; 1; 3]%nat [4; 5; 6]] ->
             shape f = [1; 1; 3]%nat) /\
  process_video
    (Video [(true, mk_ndarray [1; 1; 3]%nat [1; 2; 3]);
            (true, mk_ndarray [1; 1; 3]%nat [4; 5; 6]);
            (false, one_cell);
            (true, mk_ndarray [1; 1; 3]%nat [7; 8; 9])]) =
  Ok (mk_ndarray [2; 1; 1; 3]%nat [1; 2; 3; 4; 5; 6]).
Proof.
  assert (Hsh : forall f, In f [mk_ndarray [1; 1; 3]%nat [1; 2; 3];
                                mk_ndarray [1; 1; 3]%nat [4; 5; 6]] ->
                          shape f = [1; 1; 3]%nat).
  { intros f [<- | [<- | []]]; reflexivity. }
  split; [discriminate |]. split; [exact Hsh |].
  exact (video_frames_stacked
           [mk_ndarray [1; 1; 3]%nat [1; 2; 3]; mk_ndarray [1; 1; 3]%nat [4; 5; 6]]
           [(false, one_cell); (true, mk_ndarray [1; 1; 3]%nat [7; 8; 9])]
           1 1 ltac:(discriminate) Hsh
           (or_intror (ex_intro _ one_cell (ex_intro _ _ eq_refl)))).
Defined.

(** * The image handed to segmentation *)

(** X17: of a frame of shape (H, W, C), segmentation is given channel 1
    (green) when C >= 3, which is the channel the analysis measures, and
    channel 0 when C is 1 or 2; a 2-D frame is passed on as it is. *)
Theorem segmentation_channel_choice (H W C : nat) (d : list Z) :
  ((3 <= C)%nat ->
   segmentation_channel (mk_ndarray [H; W; C] d) =
     select_channel (mk_ndarray [H; W; C] d) /\
   segmentation_channel (mk_ndarray [H; W; C] d) =
     Ok (mk_ndarray [H; W] (map (fun p => nth (p * C + 1) d 0) (seq 0 (H * W))))) /\
  ((1 <= C < 3)%nat ->
   segmentation_channel (mk_ndarray [H; W; C] d) =
     Ok (mk_ndarray [H; W] (map (fun p => nth (p * C + 0) d 0) (seq 0 (H * W))))) /\
  segmentation_channel (mk_ndarray [H; W] d) = Ok (mk_ndarray [H; W] d).
Proof.
  split; [| split; [| reflexivity]].
  - intros HC. unfold segmentation_channel, select_channel, index_last, outer.
    cbn [shape data length Nat.eqb last_axis List.last removelast andb
         size fold_right].
    destruct (Nat.leb_spec 3 C) as [_ |]; [| lia].
    destruct (Nat.ltb_spec 1 C) as [_ |]; [| lia].
    cbn [bind shape length Nat.ltb Nat.leb].
    rewrite channel_of_chunks by lia. rewrite Nat.mul_1_r. split; reflexivity.
  - intros HC. unfold segmentation_channel, index_last, outer.
    cbn [shape data length Nat.eqb last_axis List.last removelast andb
         size fold_right].
    destruct (Nat.leb_spec 3 C) as [| _]; [lia |].
    destruct (Nat.ltb_spec 0 C) as [_ |]; [| lia].
    cbn [bind shape length Nat.ltb Nat.leb].
    rewrite channel_of_chunks by lia. now rewrite Nat.mul_1_r.
Qed.

Lemma segmentation_channel_choice_witness :
  (3 <= 3)%nat /\
  segmentation_channel (mk_ndarray [1; 1; 3]%nat [5; 7; 0]) =
  select_channel (mk_ndarray [1; 1; 3]%nat [5; 7; 0]) /\
  segmentation_channel (mk_ndarray [1; 1; 3]%nat [5; 7; 0]) =
  Ok (mk_ndarray [1; 1]%nat [7]).
Proof.
  split; [lia |].
  exact (proj1 (segmentation_channel_choice 1 1 3 [5; 7; 0]) ltac:(lia)).
Defined.

(** * Where the cell labels are drawn *)






(** * Frames are measured one by one *)

Lemma firstn_analysis_order (g : nat -> Z -> float) (n N : nat) (cells : list Z) :
  (n <= N)%nat ->
  firstn (n * length cells) (analysis_order g N cells) = analysis_order g n cells.
Proof.
  intros Hn. unfold analysis_order.
  replace N with (n + (N - n))%nat by lia.
  rewrite seq_app, flat_map_app.
  rewrite <- (length_records (fun f c => mk_record f c (g f c)) cells 0 n).
  now rewrite firstn_app, Nat.sub_diag, firstn_all, firstn_O, app_nil_r.
Qed.

Lemma analysis_order_ext (g1 g2 : nat -> Z -> float) (n : nat) (cells : list Z) :
  (forall f c, (f < n)%nat -> In c cells -> g1 f c = g2 f c) ->
  analysis_order g1 n cells = analysis_order g2 n cells.
Proof.
  intros H. unfold analysis_order. rewrite !flat_map_concat_map. f_equal.
  apply map_ext_in. intros f Hf. apply in_seq in Hf.
  apply map_ext_in. intros c Hc. f_equal. apply H; [lia | assumption].
Qed.

Lemma baseline_analysis_order (g : nat -> Z -> float) (N : nat)
  (cells : list Z) (c : Z) :
  In c cells ->
  baseline_of (analysis_order g (S N) cells) c = g 0%nat c.
Proof.
  intros Hc.
  apply (baseline_first_frame (analysis_order g (S N) cells)
           (mk_record 0 c (g 0%nat c))); [| reflexivity |].
  - unfold analysis_order. apply in_flat_map. exists 0%nat.
    split; [apply in_seq; lia |]. apply in_map_iff. now exists c.
  - intros r Hr Hc' Hf. unfold analysis_order in Hr.
    apply in_flat_map in Hr. destruct Hr as (f & _ & Hr).
    apply in_map_iff in Hr. destruct Hr as (c' & <- & _).
    cbn [frame cell_id intensity] in *. now subst.
Qed.

(** X20: the rows of the first n frames depend on those frames only: two
    tensors of the same height, width and channel layout that agree on
    their first n frames (n >= 1) give, with the same label image, tables
    that agree on their first n x K rows (K the number of cells). *)
Theorem analysis_of_common_frames (rgb : bool) (frames1 frames2 masks : ndarray)
  (N1 N2 n H W : nat) (rows1 rows2 : list nrecord) :
  shape frames1 = frame_shape rgb N1 H W -> wf frames1 ->
  shape frames2 = frame_shape rgb N2 H W -> wf frames2 ->
  shape masks = [H; W] -> wf masks ->
  (1 <= n <= N1)%nat -> (n <= N2)%nat ->
  (forall i, (i < n * size (tl (frame_shape rgb 0 H W)))%nat ->
             nth i (data frames1) 0 = nth i (data frames2) 0) ->
  analyze_calcium_intensity frames1 masks = Ok rows1 ->
  analyze_calcium_intensity frames2 masks = Ok rows2 ->
  let K := length (nonzero (np_unique (data masks))) in
  firstn (n * K) rows1 = firstn (n * K) rows2.
Proof.
  intros Hf1 Hw1 Hf2 Hw2 Hm Hwm Hn1 Hn2 Hagree Hok1 Hok2 K.
  destruct (analysis_rows_inv rgb frames1 masks N1 H W rows1 Hf1 Hm Hw1 Hwm Hok1)
    as (-> & Hlen & Hin).
  destruct (analysis_rows_inv rgb frames2 masks N2 H W rows2 Hf2 Hm Hw2 Hwm Hok2)
    as (-> & _ & _).
  destruct (sequential_labels_spec masks) as (_ & Hs & _). fold K in Hs.
  set (m := fst (sequential_labels masks)) in *.
  set (cells := snd (sequential_labels masks)) in *.
  assert (HK : K = length cells) by now rewrite Hs, length_arange1.
  assert (Hg : forall f c, (f < n)%nat -> In c cells ->
             mean_reading rgb frames1 m f c = mean_reading rgb frames2 m f c).
  { intros f c Hf Hc. unfold mean_reading. f_equal.
    apply map_ext_in. intros p Hp. f_equal.
    apply filter_In in Hp. destruct Hp as [Hp _]. apply in_seq in Hp.
    rewrite Hlen in *. unfold reading.
    destruct rgb; cbn [frame_shape tl size fold_right] in Hagree;
      apply Hagree; nia. }
  rewrite !firstn_map, HK, !firstn_analysis_order by lia.
  rewrite (analysis_order_ext _ _ n cells Hg).
  apply map_ext_in. intros r Hr. unfold normalized. f_equal. f_equal.
  unfold analysis_order in Hr. apply in_flat_map in Hr.
  destruct Hr as (f & _ & Hr). apply in_map_iff in Hr.
  destruct Hr as (c & <- & Hc). cbn [cell_id].
  destruct N1 as [| N1]; [lia |]. destruct N2 as [| N2]; [lia |].
  rewrite !baseline_analysis_order by assumption.
  apply Hg; [lia | assumption].
Qed.

Lemma analysis_of_common_frames_witness :
  shape dark_frames = frame_shape true 2 1 1 /\ wf dark_frames /\
  shape (mk_ndarray [1; 1; 1; 3]%nat [0; 0; 0]) = frame_shape true 1 1 1 /\
  wf (mk_ndarray [1; 1; 1; 3]%nat [0; 0; 0]) /\
  shape one_cell = [1; 1]%nat /\ wf one_cell /\
  firstn (1 * 1)
    [mk_nrecord (mk_record 0 1 (fl_of_Z 0)) NaN;
     mk_nrecord (mk_record 1 1 (fl_of_Z 5)) PInf] =
  firstn (1 * 1) [mk_nrecord (mk_record 0 1 (fl_of_Z 0)) NaN].
Proof.
  repeat (split; [reflexivity |]).
  refine (analysis_of_common_frames true dark_frames
            (mk_ndarray [1; 1; 1; 3]%nat [0; 0; 0]) one_cell 2 1 1 1 1 _ _
            eq_refl eq_refl eq_refl eq_refl eq_refl eq_refl
            ltac:(lia) ltac:(lia) _ eq_refl eq_refl).
  intros [| [| [| i]]] Hi; cbn in *; try reflexivity; lia.
Defined.

Lemma normalize_gray_stack (a : ndarray) (N H W : nat) :
  shape a = [N; H; W] -> in_134 W = false ->
  normalize_frames a =
  Ok (mk_ndarray [N; H; W; 3%nat] (flat_map (fun x => List.repeat x 3) (data a))).
Proof.
  destruct a as [sh d]. cbn [shape data]. intros -> HW.
  unfold normalize_frames.
  cbn [shape length Nat.eqb last_axis List.last]. rewrite HW. reflexivity.
Qed.

(** X21: turning a grayscale stack into three identical channels does not
    change what is measured: the analysis of the tensor that
    [process_video] makes of a stack (N, H, W) is the analysis of the
    stack's own values. *)
Theorem gray_stack_measured_as_is (a masks : ndarray) (N H W : nat) :
  shape a = [S N; H; W] -> in_134 W = false -> wf a ->
  shape masks = [H; W] -> wf masks ->
  nonzero (np_unique (data masks)) <> [] ->
  exists frames rows,
    process_video (Tiff a) = Ok frames /\
    analyze_calcium_intensity frames masks = Ok rows /\
    analyze_calcium_intensity a masks = Ok rows.
Proof.
  intros Ha HW Hwf Hm Hwm Hcells.
  exists (mk_ndarray [S N; H; W; 3%nat]
            (flat_map (fun x => List.repeat x 3) (data a))).
  eexists. split.
  { unfold process_video. cbn [bind].
    exact (normalize_gray_stack a (S N) H W Ha HW). }
  set (frames := mk_ndarray _ _).
  assert (Hwf' : wf frames).
  { unfold wf in *. subst frames. cbn [shape data].
    rewrite length_triplicate, Hwf, Ha. cbn [size fold_right]. lia. }
  destruct (analysis_rows true frames masks N H W eq_refl Hm Hwf' Hwm Hcells)
    as [Hok1 _].
  destruct (analysis_rows false a masks N H W Ha Hm Hwf Hwm Hcells)
    as [Hok2 _].
  rewrite Hok1, Hok2. split; [reflexivity |]. f_equal.
  assert (E : forall f c,
            mean_reading true frames (fst (sequential_labels masks)) f c =
            mean_reading false a (fst (sequential_labels masks)) f c).
  { intros f c. unfold mean_reading. f_equal. apply map_ext. intros p.
    f_equal. unfold reading. subst frames. cbn [data].
    set (i := (f * _ + p)%nat).
    replace (i * 3 + 1)%nat with (3 * i + 1)%nat by lia.
    apply nth_triplicate. lia. }
  assert (Ers : forall fs cells,
            flat_map (fun f => map (fun c => mk_record f c
                       (mean_reading false a (fst (sequential_labels masks)) f c))
                       cells) fs =
            flat_map (fun f => map (fun c => mk_record f c
                       (mean_reading true frames (fst (sequential_labels masks)) f c))
                       cells) fs).
  { intros fs cells. rewrite !flat_map_concat_map. f_equal.
    apply map_ext. intros f. apply map_ext. intros c. now rewrite E. }
  now rewrite Ers.
Qed.

Lemma gray_stack_measured_as_is_witness :
  shape (mk_ndarray [1; 1; 2]%nat [6; 8]) = [1; 1; 2]%nat /\
  in_134 2 = false /\ wf (mk_ndarray [1; 1; 2]%nat [6; 8]) /\
  shape (mk_ndarray [1; 2]%nat [1; 1]) = [1; 2]%nat /\
  wf (mk_ndarray [1; 2]%nat [1; 1]) /\
  nonzero (np_unique (data (mk_ndarray [1; 2]%nat [1; 1]))) <> [] /\
  exists frames rows,
    process_video (Tiff (mk_ndarray [1; 1; 2]%nat [6; 8])) = Ok frames /\
    analyze_calcium_intensity frames (mk_ndarray [1; 2]%nat [1; 1]) = Ok rows /\
    analyze_calcium_intensity (mk_ndarray [1; 1; 2]%nat [6; 8])
      (mk_ndarray [1; 2]%nat [1; 1]) = Ok rows.
Proof.
  repeat (split; [first [reflexivity | discriminate] |]).
  apply (gray_stack_measured_as_is (mk_ndarray [1; 1; 2]%nat [6; 8])
           (mk_ndarray [1; 2]%nat [1; 1]) 0 1 2);
    first [reflexivity | discriminate].
Defined.

(** * The two readers of a mask file *)

(** X22: [process_mask] and [analyze_video] reduce a mask file in the same
    way whenever its last axis does not have size 3 (and whenever it has
    at most two axes); the mask relabelled at upload is then the mask the
    analysis works on. *)
Theorem mask_readers_agree (mask_file : ndarray) :
  (length (shape mask_file) <= 2)%nat \/ last_axis (shape mask_file) <> 3%nat ->
  process_mask_reduce mask_file = analyze_video_reduce mask_file /\
  forall m, analyze_video_reduce mask_file = Ok m ->
    fst (process_mask_relabel m) = fst (sequential_labels m).
Proof.
  intros Hshape. split.
  - unfold process_mask_reduce, analyze_video_reduce.
    destruct (Nat.ltb_spec 2 (length (shape mask_file))) as [Hlen | _];
      [| reflexivity].
    destruct Hshape as [Hle | Hlast]; [lia |].
    destruct (Nat.eqb_spec (last_axis (shape mask_file)) 3) as [| _];
      [contradiction |].
    destruct (Nat.eqb_spec (length (shape mask_file)) 3) as [H3 | _];
      [| reflexivity].
    cbn [andb].
    destruct (shape mask_file) as [| a [| b [| c [| d r]]]]; try discriminate.
    cbn [nth last_axis List.last] in *.
    destruct (Nat.eqb_spec c 3); [contradiction | reflexivity].
  - intros m _. rewrite process_mask_relabel_spec. cbn [fst]. symmetry.
    apply sequential_labels_relabel.
Qed.

Lemma mask_readers_agree_witness :
  ((length (shape (mk_ndarray [2; 1; 2]%nat [9; 4; 0; 0]%Z)) <= 2)%nat \/
   last_axis (shape (mk_ndarray [2; 1; 2]%nat [9; 4; 0; 0])) <> 3%nat) /\
  process_mask_reduce (mk_ndarray [2; 1; 2]%nat [9; 4; 0; 0]) =
  analyze_video_reduce (mk_ndarray [2; 1; 2]%nat [9; 4; 0; 0]).
Proof.
  assert (H : (length (shape (mk_ndarray [2; 1; 2]%nat [9; 4; 0; 0]%Z)) <= 2)%nat \/
              last_axis (shape (mk_ndarray [2; 1; 2]%nat [9; 4; 0; 0])) <> 3%nat).
  { right. cbn. lia. }
  split; [exact H |].
  exact (proj1 (mask_readers_agree (mk_ndarray [2; 1; 2]%nat [9; 4; 0; 0]) H)).
Defined.
